(** * The Installation reconciler of the Porter operator

    A shallow embedding of [controllers/installation_controller.go] and of the
    [Installation] API type it reconciles.  The reconciler talks to the
    cluster through [client.Client]; here every client call is a node of a
    program tree, so that the calls a reconciliation pass makes, their order
    and the replies it received are all visible in a trace. *)

From stdpp Require Import gmap strings list fin_maps pretty.
From Stdlib Require Import ZArith Ascii.

Local Open Scope string_scope.
Local Open Scope Z_scope.
Local Open Scope list_scope.

(** ** Go errors *)

(** [metav1.StatusReason], as far as the reconciler distinguishes it. *)
Inductive StatusReason :=
| StatusReasonUnknown
| StatusReasonNotFound
| StatusReasonAlreadyExists
| StatusReasonConflict
| StatusReasonTimeout.

(** A Go [error] value (never nil; a nilable error is an [option error]):
    an API status error, any other error, or an error wrapped with a message
    by [errors.Wrapf]. *)
Inductive error :=
| StatusError (reason : StatusReason) (message : string)
| errorString (message : string)
| withMessage (cause : error) (message : string).

(** [err.Error()] *)
Fixpoint Error (err : error) : string :=
  match err with
  | StatusError _ m => m
  | errorString m => m
  | withMessage cause m => m +:+ ": " +:+ Error cause
  end.

(** [apierrors.ReasonForError]: the reason of the first API status found
    along the chain of wrapped errors. *)
Fixpoint ReasonForError (err : error) : StatusReason :=
  match err with
  | StatusError r _ => r
  | errorString _ => StatusReasonUnknown
  | withMessage cause _ => ReasonForError cause
  end.

(** [apierrors.IsNotFound] *)
Definition IsNotFound (err : error) : bool :=
  match ReasonForError err with
  | StatusReasonNotFound => true
  | _ => false
  end.

(** [apierrors.IsAlreadyExists] *)
Definition IsAlreadyExists (err : error) : bool :=
  match ReasonForError err with
  | StatusReasonAlreadyExists => true
  | _ => false
  end.

(** [errors.Wrapf(err, format, args...)]: nil stays nil.  The message is the
    rendered format. *)
Definition Wrapf (err : option error) (message : string) : option error :=
  match err with
  | None => None
  | Some e => Some (withMessage e message)
  end.

(** ** Kubernetes API types (the fields the reconciler touches) *)

Module NamespacedName.
Record t := { Namespace : string; Name : string }.
End NamespacedName.

(** [ctrl.Request] embeds a [types.NamespacedName]. *)
Module Request.
Record t := { NamespacedName : NamespacedName.t }.
Definition Name (req : t) : string := NamespacedName.Name (NamespacedName req).
Definition Namespace (req : t) : string :=
  NamespacedName.Namespace (NamespacedName req).
End Request.

(** [ctrl.Result]; [RequeueAfter] is a duration in nanoseconds. *)
Module Result.
Record t := { Requeue : bool; RequeueAfter : Z }.
(** [ctrl.Result{}] *)
Definition zero : t := {| Requeue := false; RequeueAfter := 0 |}.
End Result.

Module TypeMeta.
Record t := { Kind : string; APIVersion : string }.
Definition zero : t := {| Kind := ""; APIVersion := "" |}.
End TypeMeta.

Module OwnerReference.
Record t := {
  APIVersion : string;
  Kind : string;
  Name : string;
  UID : string;
  Controller : option bool;
  BlockOwnerDeletion : option bool
}.
End OwnerReference.

Module ObjectMeta.
Record t := {
  Name : string;
  GenerateName : string;
  Namespace : string;
  UID : string;
  ResourceVersion : string;
  Labels : gmap string string;
  OwnerReferences : list OwnerReference.t
}.
Definition zero : t :=
  {| Name := ""; GenerateName := ""; Namespace := ""; UID := "";
     ResourceVersion := ""; Labels := ∅; OwnerReferences := [] |}.
Definition setResourceVersion (rv : string) (m : t) : t :=
  {| Name := Name m; GenerateName := GenerateName m; Namespace := Namespace m;
     UID := UID m; ResourceVersion := rv; Labels := Labels m;
     OwnerReferences := OwnerReferences m |}.
End ObjectMeta.

Module LocalObjectReference.
Record t := { Name : string }.
Definition zero : t := {| Name := "" |}.
End LocalObjectReference.

(** ** The Installation resource ([api/v1/installation_types.go]) *)

Module InstallationSpec.
Record t := {
  Reference : string;
  Action : string;
  PorterVersion : string;
  ServiceAccount : string;
  CredentialSets : list string;
  ParameterSets : list string;
  Parameters : gmap string string;
  OutputsVolumeSize : string
}.
End InstallationSpec.

Module InstallationStatus.
Record t := {
  ActiveJob : LocalObjectReference.t;
  LastJob : LocalObjectReference.t
}.
Definition zero : t :=
  {| ActiveJob := LocalObjectReference.zero;
     LastJob := LocalObjectReference.zero |}.
End InstallationStatus.

Module Installation.
Record t := {
  TypeMeta : TypeMeta.t;
  ObjectMeta : ObjectMeta.t;
  Spec : InstallationSpec.t;
  Status : InstallationStatus.t
}.
(** Fields promoted from the embedded structs. *)
Definition Name (inst : t) : string := ObjectMeta.Name (ObjectMeta inst).
Definition Namespace (inst : t) : string := ObjectMeta.Namespace (ObjectMeta inst).
Definition UID (inst : t) : string := ObjectMeta.UID (ObjectMeta inst).
Definition ResourceVersion (inst : t) : string :=
  ObjectMeta.ResourceVersion (ObjectMeta inst).
Definition Kind (inst : t) : string := TypeMeta.Kind (TypeMeta inst).
Definition APIVersion (inst : t) : string := TypeMeta.APIVersion (TypeMeta inst).
Definition setStatus (st : InstallationStatus.t) (inst : t) : t :=
  {| TypeMeta := TypeMeta inst; ObjectMeta := ObjectMeta inst;
     Spec := Spec inst; Status := st |}.
Definition setObjectMeta (m : ObjectMeta.t) (inst : t) : t :=
  {| TypeMeta := TypeMeta inst; ObjectMeta := m;
     Spec := Spec inst; Status := Status inst |}.
End Installation.

(** ** Objects the reconciler reads and creates *)

Module ConfigMap.
Record t := { ObjectMeta : ObjectMeta.t; Data : gmap string string }.
(** [&corev1.ConfigMap{}]: the nil [Data] map has no key. *)
Definition zero : t := {| ObjectMeta := ObjectMeta.zero; Data := ∅ |}.
End ConfigMap.

(** [resource.Quantity]: the number [unscaled * 10 ^ scale] and the notation
    it was written in. *)
Inductive Format := DecimalExponent | BinarySI | DecimalSI.

Module Quantity.
Record t := { unscaled : Z; scale : Z; Format : Format }.
End Quantity.

Inductive PersistentVolumeAccessMode := ReadWriteOnce | ReadOnlyMany | ReadWriteMany.

(** [corev1.ResourceStorage] *)
Definition ResourceStorage : string := "storage".

Module ResourceRequirements.
Record t := { Requests : gmap string Quantity.t }.
End ResourceRequirements.

Module PersistentVolumeClaimSpec.
Record t := {
  AccessModes : list PersistentVolumeAccessMode;
  Resources : ResourceRequirements.t
}.
End PersistentVolumeClaimSpec.

Module PersistentVolumeClaim.
Record t := { ObjectMeta : ObjectMeta.t; Spec : PersistentVolumeClaimSpec.t }.
Definition Name (pvc : t) : string := ObjectMeta.Name (ObjectMeta pvc).
Definition Namespace (pvc : t) : string := ObjectMeta.Namespace (ObjectMeta pvc).
Definition setObjectMeta (m : ObjectMeta.t) (pvc : t) : t :=
  {| ObjectMeta := m; Spec := Spec pvc |}.
End PersistentVolumeClaim.

Module PersistentVolumeClaimVolumeSource.
Record t := { ClaimName : string }.
End PersistentVolumeClaimVolumeSource.

Module SecretVolumeSource.
Record t := { SecretName : string; Optional : option bool }.
End SecretVolumeSource.

Module VolumeSource.
Record t := {
  PersistentVolumeClaim : option PersistentVolumeClaimVolumeSource.t;
  Secret : option SecretVolumeSource.t
}.
End VolumeSource.

Module Volume.
Record t := { Name : string; VolumeSource : VolumeSource.t }.
End Volume.

Module EnvVar.
Record t := { Name : string; Value : string }.
End EnvVar.

Module SecretEnvSource.
Record t := {
  LocalObjectReference : LocalObjectReference.t;
  Optional : option bool
}.
End SecretEnvSource.

Module EnvFromSource.
Record t := { SecretRef : option SecretEnvSource.t }.
End EnvFromSource.

Module VolumeMount.
Record t := { Name : string; MountPath : string }.
End VolumeMount.

Inductive PullPolicy := PullAlways | PullNever | PullIfNotPresent.

Module Container.
Record t := {
  Name : string;
  Image : string;
  ImagePullPolicy : PullPolicy;
  Args : list string;
  Env : list EnvVar.t;
  EnvFrom : list EnvFromSource.t;
  VolumeMounts : list VolumeMount.t
}.
End Container.

Module PodSpec.
Record t := {
  Volumes : list Volume.t;
  Containers : list Container.t;
  RestartPolicy : string;
  ServiceAccountName : string;
  ImagePullSecrets : list LocalObjectReference.t
}.
End PodSpec.

Module PodTemplateSpec.
Record t := { ObjectMeta : ObjectMeta.t; Spec : PodSpec.t }.
End PodTemplateSpec.

(** [Completions] and [BackoffLimit] are [*int32]. *)
Module JobSpec.
Record t := {
  Completions : option Z;
  BackoffLimit : option Z;
  Template : PodTemplateSpec.t
}.
End JobSpec.

Module Job.
Record t := { ObjectMeta : ObjectMeta.t; Spec : JobSpec.t }.
Definition Name (job : t) : string := ObjectMeta.Name (ObjectMeta job).
Definition Namespace (job : t) : string := ObjectMeta.Namespace (ObjectMeta job).
Definition setObjectMeta (m : ObjectMeta.t) (job : t) : t :=
  {| ObjectMeta := m; Spec := Spec job |}.
End Job.

(** [client.CreateOptions{}] *)
Module CreateOptions.
Record t := { DryRun : list string; FieldManager : string }.
Definition zero : t := {| DryRun := []; FieldManager := "" |}.
End CreateOptions.

(** ** Reconciler programs: trees of client calls *)

(** A value handed to the structured logger as part of [keysAndValues]. *)
Inductive LogValue :=
| LogString (s : string)
| LogQuantity (q : Quantity.t).

(** The calls the reconciler can make on its collaborators, each with the
    type of its reply.  [Get] fills an object or fails, [Create], [Update]
    and [Status().Update] return a nilable error.  [Update] and
    [Status().Update] are part of [client.Client] and listed here so that a
    trace can show whether they occur.  [RangeParameters] is Go's [range]
    over a map: the runtime picks the iteration order, which is some
    permutation of the entries. *)
Inductive Call : Type → Type :=
| GetInstallation (key : NamespacedName.t) : Call (Installation.t + error)
| GetJob (key : NamespacedName.t) : Call (Job.t + error)
| GetConfigMap (key : NamespacedName.t) : Call (ConfigMap.t + error)
| CreatePersistentVolumeClaim (obj : PersistentVolumeClaim.t)
    (opts : list CreateOptions.t) : Call (option error)
| CreateJob (obj : Job.t) (opts : list CreateOptions.t) : Call (option error)
| UpdateInstallation (obj : Installation.t) : Call (option error)
| StatusUpdateInstallation (obj : Installation.t) : Call (option error)
| LogInfo (msg : string) (keysAndValues : list LogValue) : Call unit
| RangeParameters (m : gmap string string) :
    Call { kvs : list (string * string) | kvs ≡ₚ map_to_list m }.

(** One call together with the reply it got. *)
Inductive Event :=
| EvGetInstallation (key : NamespacedName.t) (reply : Installation.t + error)
| EvGetJob (key : NamespacedName.t) (reply : Job.t + error)
| EvGetConfigMap (key : NamespacedName.t) (reply : ConfigMap.t + error)
| EvCreatePersistentVolumeClaim (obj : PersistentVolumeClaim.t)
    (opts : list CreateOptions.t) (reply : option error)
| EvCreateJob (obj : Job.t) (opts : list CreateOptions.t) (reply : option error)
| EvUpdateInstallation (obj : Installation.t) (reply : option error)
| EvStatusUpdateInstallation (obj : Installation.t) (reply : option error)
| EvLogInfo (msg : string) (keysAndValues : list LogValue)
| EvRangeParameters (m : gmap string string) (order : list (string * string)).

Definition observe {T} (c : Call T) : T → Event :=
  match c in Call T return T → Event with
  | GetInstallation key => EvGetInstallation key
  | GetJob key => EvGetJob key
  | GetConfigMap key => EvGetConfigMap key
  | CreatePersistentVolumeClaim obj opts => EvCreatePersistentVolumeClaim obj opts
  | CreateJob obj opts => EvCreateJob obj opts
  | UpdateInstallation obj => EvUpdateInstallation obj
  | StatusUpdateInstallation obj => EvStatusUpdateInstallation obj
  | LogInfo msg kvs => λ _, EvLogInfo msg kvs
  | RangeParameters m => λ r, EvRangeParameters m (proj1_sig r)
  end.

Inductive Prog (A : Type) : Type :=
| Ret (a : A)
| Vis {T : Type} (c : Call T) (k : T → Prog A).
Arguments Ret {A} a.
Arguments Vis {A T} c k.

Fixpoint Prog_bind {A B} (f : A → Prog B) (p : Prog A) : Prog B :=
  match p with
  | Ret a => f a
  | Vis c k => Vis c (λ r, Prog_bind f (k r))
  end.

Global Instance Prog_mret : MRet Prog := @Ret.
Global Instance Prog_mbind : MBind Prog := @Prog_bind.

Definition call {T} (c : Call T) : Prog T := Vis c Ret.

(** [exec p tr a]: the program [p] can make the calls of [tr], receive the
    replies recorded there and return [a].  No reply is excluded: this is the
    behaviour of [p] against every possible client. *)
Fixpoint exec {A} (p : Prog A) (tr : list Event) (a : A) : Prop :=
  match p with
  | Ret x => tr = [] ∧ a = x
  | Vis c k => ∃ r tr', tr = observe c r :: tr' ∧ exec (k r) tr' a
  end.

(** A client (and logger, and map iterator) with state [St]. *)
Definition Handler (St : Type) : Type := ∀ T, Call T → St → T * St.

(** Running a program against a client: result, final state and trace. *)
Fixpoint run {St A} (h : Handler St) (p : Prog A) (s : St) : A * St * list Event :=
  match p with
  | Ret a => (a, s, [])
  | Vis c k =>
      let '(r, s1) := h _ c s in
      let '(a, s2, tr) := run h (k r) s1 in
      (a, s2, observe c r :: tr)
  end.

(** ** Observations on traces *)

Definition is_create (e : Event) : bool :=
  match e with
  | EvCreatePersistentVolumeClaim _ _ _ | EvCreateJob _ _ _ => true
  | _ => false
  end.

Definition is_update (e : Event) : bool :=
  match e with
  | EvUpdateInstallation _ _ | EvStatusUpdateInstallation _ _ => true
  | _ => false
  end.

(** The creations attempted in a trace, in order. *)
Definition creations (tr : list Event) : list Event := List.filter is_create tr.

(** The writes to an Installation attempted in a trace. *)
Definition updates (tr : list Event) : list Event := List.filter is_update tr.

Definition configLookup (e : Event) : option (NamespacedName.t * (ConfigMap.t + error)) :=
  match e with
  | EvGetConfigMap key reply => Some (key, reply)
  | _ => None
  end.

(** The configmap lookups of a trace with their replies, in order. *)
Definition configLookups (tr : list Event) :
    list (NamespacedName.t * (ConfigMap.t + error)) :=
  omap configLookup tr.

(** ** The reconciler *)

Section Reconciler.

(** Library functions the controller calls: [resource.ParseQuantity],
    porter's [manifest.IsCoreAction], and the quoting [fmt] does for [%q]. *)
Variable ParseQuantity : string → Quantity.t + error.
Variable IsCoreAction : string → bool.
Variable Quote : string → string.

(** The object a [Get] leaves in the caller's variable: the one found, or
    the zero value the variable was initialised with. *)
Definition configMapOrZero (r : ConfigMap.t + error) : ConfigMap.t :=
  match r with
  | inl cfg => cfg
  | inr _ => ConfigMap.zero
  end.

Definition porterConfigKey (inst : Installation.t) : NamespacedName.t :=
  {| NamespacedName.Name := "porter";
     NamespacedName.Namespace := Installation.Namespace inst |}.

(** The log line written when the configmap could not be retrieved. *)
Definition warnNoConfig (r : ConfigMap.t + error) : Prog unit :=
  match r with
  | inr err =>
      call (LogInfo ("WARN: cannot retrieve porter configmap " +:+ Quote (Error err)
                       +:+ ", using default configuration") [])
  | inl _ => Ret tt
  end.

Definition getOutputsVolumeSize (inst : Installation.t) : Prog (Quantity.t + error) :=
  let spec := Installation.Spec inst in
  let outputsVolumeSize := "128Mi" in
  outputsVolumeSize ←
    (if decide (InstallationSpec.OutputsVolumeSize spec ≠ "") then
       call (LogInfo ("bundle outputs volume size override: "
                        +:+ InstallationSpec.OutputsVolumeSize spec) []);;
       Ret (InstallationSpec.OutputsVolumeSize spec)
     else
       r ← call (GetConfigMap (porterConfigKey inst));
       let cfg := configMapOrZero r in
       warnNoConfig r;;
       match ConfigMap.Data cfg !! "outputsVolumeSize" with
       | Some v =>
           call (LogInfo ("bundle outputs volume size defaulted from configmap to "
                            +:+ v) []);;
           Ret v
       | None => Ret outputsVolumeSize
       end);
  match ParseQuantity outputsVolumeSize with
  | inr err =>
      Ret (inr (withMessage err ("invalid outputsVolumeSize " +:+ outputsVolumeSize)))
  | inl qty =>
      call (LogInfo "resolved bundle outputs volume size"
              [LogString "outputsVolumeSize"; LogQuantity qty]);;
      Ret (inl qty)
  end.

Definition getPorterImageVersion (inst : Installation.t) : Prog (string * PullPolicy) :=
  let spec := Installation.Spec inst in
  let porterVersion := "latest" in
  porterVersion ←
    (if decide (InstallationSpec.PorterVersion spec ≠ "") then
       call (LogInfo ("porter image version override: "
                        +:+ InstallationSpec.PorterVersion spec) []);;
       Ret (InstallationSpec.PorterVersion spec)
     else
       r ← call (GetConfigMap (porterConfigKey inst));
       let cfg := configMapOrZero r in
       warnNoConfig r;;
       match ConfigMap.Data cfg !! "porterVersion" with
       | Some v =>
           call (LogInfo ("porter image version defaulted from configmap to " +:+ v) []);;
           Ret v
       | None => Ret porterVersion
       end);
  call (LogInfo "resolved porter image version"
          [LogString "version"; LogString porterVersion]);;
  let pullPolicy :=
    if bool_decide (porterVersion = "canary") || bool_decide (porterVersion = "latest")
    then PullAlways else PullIfNotPresent in
  Ret (porterVersion, pullPolicy).

Definition getPorterAgentServiceAccount (inst : Installation.t) : Prog string :=
  let spec := Installation.Spec inst in
  let serviceAccount := "" in
  serviceAccount ←
    (if decide (InstallationSpec.ServiceAccount spec ≠ "") then
       call (LogInfo ("porter agent service account override: "
                        +:+ InstallationSpec.ServiceAccount spec) []);;
       Ret (InstallationSpec.ServiceAccount spec)
     else
       r ← call (GetConfigMap (porterConfigKey inst));
       let cfg := configMapOrZero r in
       warnNoConfig r;;
       match ConfigMap.Data cfg !! "serviceAccount" with
       | Some v =>
           call (LogInfo ("porter agent service account defaulted from configmap to "
                            +:+ v) []);;
           Ret v
       | None => Ret serviceAccount
       end);
  call (LogInfo "resolved porter agent service account"
          [LogString "serviceAccount"; LogString serviceAccount]);;
  Ret serviceAccount.

(** The argument vector of the porter invocation (the [args] variable
    of [createJobForInstallation]), given the order in which [range]
    visited [inst.Spec.Parameters]. *)
Definition porterArgs (inst : Installation.t) (params : list (string * string)) :
    list string :=
  let spec := Installation.Spec inst in
  let args : list string := [] in
  let args :=
    if IsCoreAction (InstallationSpec.Action spec)
    then args ++ [InstallationSpec.Action spec]
    else args ++ ["invoke"; "--action=" +:+ InstallationSpec.Action spec] in
  let args :=
    args ++ [Installation.Name inst;
             "--reference=" +:+ InstallationSpec.Reference spec;
             "--debug";
             "--debug-plugins";
             "--driver=kubernetes"] in
  let args :=
    foldl (λ args c, args ++ ["-c=" +:+ c]) args (InstallationSpec.CredentialSets spec) in
  let args :=
    foldl (λ args p, args ++ ["-p=" +:+ p]) args (InstallationSpec.ParameterSets spec) in
  foldl (λ args kv, args ++ ["--param=" +:+ kv.1 +:+ "=" +:+ kv.2]) args params.

(** The [pvc] literal of [createJobForInstallation]. *)
Definition scratchVolumeClaim (jobName : string) (inst : Installation.t)
    (outputsReq : Quantity.t) : PersistentVolumeClaim.t :=
  {| PersistentVolumeClaim.ObjectMeta :=
       {| ObjectMeta.Name := jobName;
          ObjectMeta.GenerateName := "";
          ObjectMeta.Namespace := Installation.Namespace inst;
          ObjectMeta.UID := "";
          ObjectMeta.ResourceVersion := "";
          ObjectMeta.Labels :=
            list_to_map [("porter", "true");
                         ("installation", Installation.Name inst);
                         ("job", jobName)];
          ObjectMeta.OwnerReferences := [] |};
     PersistentVolumeClaim.Spec :=
       {| PersistentVolumeClaimSpec.AccessModes := [ReadWriteOnce];
          PersistentVolumeClaimSpec.Resources :=
            {| ResourceRequirements.Requests :=
                 list_to_map [(ResourceStorage, outputsReq)] |} |} |}.

(** The [porterJob] literal of [createJobForInstallation]. *)
Definition porterJobFor (jobName : string) (inst : Installation.t)
    (pvc : PersistentVolumeClaim.t) (img : string) (pullPolicy : PullPolicy)
    (serviceAccount : string) (args : list string) : Job.t :=
  {| Job.ObjectMeta :=
       {| ObjectMeta.Name := jobName;
          ObjectMeta.GenerateName := "";
          ObjectMeta.Namespace := Installation.Namespace inst;
          ObjectMeta.UID := "";
          ObjectMeta.ResourceVersion := "";
          ObjectMeta.Labels :=
            list_to_map [("porter", "true");
                         ("installation", Installation.Name inst)];
          ObjectMeta.OwnerReferences := [] |};
     Job.Spec :=
       {| JobSpec.Completions := Some 1;
          JobSpec.BackoffLimit := Some 0;
          JobSpec.Template :=
            {| PodTemplateSpec.ObjectMeta :=
                 {| ObjectMeta.Name := "";
                    ObjectMeta.GenerateName := jobName;
                    ObjectMeta.Namespace := Installation.Namespace inst;
                    ObjectMeta.UID := "";
                    ObjectMeta.ResourceVersion := "";
                    ObjectMeta.Labels :=
                      list_to_map [("porter", "true");
                                   ("installation", Installation.Name inst)];
                    ObjectMeta.OwnerReferences :=
                      [ {| OwnerReference.APIVersion := Installation.APIVersion inst;
                           OwnerReference.Kind := Installation.Kind inst;
                           OwnerReference.Name := Installation.Name inst;
                           OwnerReference.UID := Installation.UID inst;
                           OwnerReference.Controller := None;
                           OwnerReference.BlockOwnerDeletion := Some true |} ] |};
               PodTemplateSpec.Spec :=
                 {| PodSpec.Volumes :=
                      [ {| Volume.Name := "porter-shared";
                           Volume.VolumeSource :=
                             {| VolumeSource.PersistentVolumeClaim :=
                                  Some {| PersistentVolumeClaimVolumeSource.ClaimName :=
                                            PersistentVolumeClaim.Name pvc |};
                                VolumeSource.Secret := None |} |};
                        {| Volume.Name := "porter-config";
                           Volume.VolumeSource :=
                             {| VolumeSource.PersistentVolumeClaim := None;
                                VolumeSource.Secret :=
                                  Some {| SecretVolumeSource.SecretName := "porter-config";
                                          SecretVolumeSource.Optional := Some true |} |} |} ];
                    PodSpec.Containers :=
                      [ {| Container.Name := jobName;
                           Container.Image := img;
                           Container.ImagePullPolicy := pullPolicy;
                           Container.Args := args;
                           Container.Env :=
                             [ {| EnvVar.Name := "KUBE_NAMESPACE";
                                  EnvVar.Value := Installation.Namespace inst |};
                               {| EnvVar.Name := "IN_CLUSTER"; EnvVar.Value := "true" |};
                               {| EnvVar.Name := "LABELS";
                                  EnvVar.Value := "porter=true installation="
                                                    +:+ Installation.Name inst |};
                               {| EnvVar.Name := "JOB_VOLUME_NAME";
                                  EnvVar.Value := PersistentVolumeClaim.Name pvc |};
                               {| EnvVar.Name := "JOB_VOLUME_PATH";
                                  EnvVar.Value := "/porter-shared" |};
                               {| EnvVar.Name := "CLEANUP_JOBS"; EnvVar.Value := "false" |} ];
                           Container.EnvFrom :=
                             [ {| EnvFromSource.SecretRef :=
                                    Some {| SecretEnvSource.LocalObjectReference :=
                                              {| LocalObjectReference.Name := "porter-env" |};
                                            SecretEnvSource.Optional := Some true |} |} ];
                           Container.VolumeMounts :=
                             [ {| VolumeMount.Name := "porter-shared";
                                  VolumeMount.MountPath := "/porter-shared" |};
                               {| VolumeMount.Name := "porter-config";
                                  VolumeMount.MountPath := "/porter-config" |} ] |} ];
                    PodSpec.RestartPolicy := "Never";
                    PodSpec.ServiceAccountName := serviceAccount;
                    PodSpec.ImagePullSecrets := [] |} |} |} |}.

Definition createJobForInstallation (jobName : string) (inst : Installation.t) :
    Prog (option error) :=
  call (LogInfo ("creating porter job " +:+ Installation.Namespace inst +:+ "/"
                   +:+ jobName +:+ " for Installation "
                   +:+ Installation.Namespace inst +:+ "/"
                   +:+ Installation.Name inst) []);;
  r ← getOutputsVolumeSize inst;
  match r with
  | inr err => Ret (Some err)
  | inl outputsReq =>
      let pvc := scratchVolumeClaim jobName inst outputsReq in
      err ← call (CreatePersistentVolumeClaim pvc []);
      match err with
      | Some err => Ret (Some err)
      | None =>
          '(porterVersion, pullPolicy) ← getPorterImageVersion inst;
          let img := "ghcr.io/getporter/porter:kubernetes-" +:+ porterVersion in
          call (LogInfo ("Using " +:+ img) []);;
          serviceAccount ← getPorterAgentServiceAccount inst;
          params ← call (RangeParameters
                           (InstallationSpec.Parameters (Installation.Spec inst)));
          let args := porterArgs inst (proj1_sig params) in
          let porterJob :=
            porterJobFor jobName inst pvc img pullPolicy serviceAccount args in
          err ← call (CreateJob porterJob [CreateOptions.zero]);
          Ret (Wrapf err ("error creating job for Installation "
                            +:+ Installation.Namespace inst +:+ "/"
                            +:+ Installation.Name inst +:+ "@"
                            +:+ Installation.ResourceVersion inst))
      end
  end.

Definition Reconcile (req : Request.t) : Prog (Result.t * option error) :=
  r ← call (GetInstallation (Request.NamespacedName req));
  match r with
  | inr err =>
      call (LogInfo "Installation has been deleted"
              [LogString "installation";
               LogString (Request.Namespace req +:+ "/" +:+ Request.Name req)]);;
      Ret ({| Result.Requeue := false; Result.RequeueAfter := 0 |}, None)
  | inl inst =>
      let jobName := Request.Name req +:+ "-" +:+ Installation.ResourceVersion inst in
      r ← call (GetJob {| NamespacedName.Name := jobName;
                          NamespacedName.Namespace := Request.Namespace req |});
      match r with
      | inr err =>
          if IsNotFound err then
            err ← createJobForInstallation jobName inst;
            match err with
            | Some err => Ret (Result.zero, Some err)
            | None => Ret (Result.zero, None)
            end
          else
            (* porterJob was not filled by the failed Get: its Name is empty *)
            Ret (Result.zero,
                 Wrapf (Some err)
                   ("could not query for the bundle installation job "
                      +:+ Request.Namespace req +:+ "/" +:+ ""))
      | inl porterJob => Ret (Result.zero, None)
      end
  end.

End Reconciler.

(** ** Reference instances of the library functions *)

(** porter's [manifest.IsCoreAction]: install, upgrade and uninstall. *)
Definition coreActions : list string := ["install"; "upgrade"; "uninstall"].
Definition porterIsCoreAction (action : string) : bool :=
  bool_decide (action ∈ coreActions).

(** [%q] on a string without characters that need escaping. *)
Definition doubleQuote : string := String (ascii_of_nat 34) EmptyString.
Definition quotePlain (s : string) : string := doubleQuote +:+ s +:+ doubleQuote.

(** A quantity parser for the grammar of [resource.ParseQuantity]:
    an optional sign, digits with an optional fraction, and a binary,
    decimal or exponent suffix. *)
Definition is_digit (a : ascii) : bool :=
  (48 <=? Z.of_nat (nat_of_ascii a)) && (Z.of_nat (nat_of_ascii a) <=? 57).

Fixpoint span_digits (s : string) : list ascii * string :=
  match s with
  | String a rest =>
      if is_digit a then
        let '(ds, tl) := span_digits rest in (a :: ds, tl)
      else ([], s)
  | EmptyString => ([], s)
  end.

Definition digits_value (ds : list ascii) : Z :=
  foldl (λ acc d, 10 * acc + (Z.of_nat (nat_of_ascii d) - 48)) 0 ds.

Definition binarySuffixes : list (string * Z) :=
  [("Ki", 10); ("Mi", 20); ("Gi", 30); ("Ti", 40); ("Pi", 50); ("Ei", 60)].

Definition decimalSuffixes : list (string * Z) :=
  [("n", -9); ("u", -6); ("m", -3); ("", 0); ("k", 3); ("M", 6); ("G", 9);
   ("T", 12); ("P", 15); ("E", 18)].

Definition lookupSuffix (table : list (string * Z)) (suffix : string) : option Z :=
  snd <$> List.find (λ kv, bool_decide (kv.1 = suffix)) table.

Definition parseSign (s : string) : Z * string :=
  match s with
  | String "+"%char rest => (1, rest)
  | String "-"%char rest => (-1, rest)
  | _ => (1, s)
  end.

Definition parseExponent (suffix : string) : option Z :=
  match suffix with
  | String "e"%char rest | String "E"%char rest =>
      let '(sign, rest) := parseSign rest in
      match span_digits rest with
      | (_ :: _ as ds, EmptyString) => Some (sign * digits_value ds)
      | _ => None
      end
  | _ => None
  end.

Definition ErrFormatWrong : error :=
  errorString "quantities must match the regular expression of the quantity grammar".
Definition ErrSuffix : error := errorString "unable to parse quantity's suffix".

Definition parseQuantityGrammar (str : string) : Quantity.t + error :=
  let '(sign, rest) := parseSign str in
  let '(whole, rest) := span_digits rest in
  let '(frac, suffix) :=
    match rest with
    | String "."%char rest' => span_digits rest'
    | _ => ([], rest)
    end in
  match whole ++ frac with
  | [] => inr ErrFormatWrong
  | ds =>
      let mantissa := sign * digits_value ds in
      let decimals := Z.of_nat (length frac) in
      match lookupSuffix binarySuffixes suffix with
      | Some e =>
          inl {| Quantity.unscaled := mantissa * 2 ^ e;
                 Quantity.scale := - decimals;
                 Quantity.Format := BinarySI |}
      | None =>
          match lookupSuffix decimalSuffixes suffix with
          | Some e =>
              inl {| Quantity.unscaled := mantissa;
                     Quantity.scale := e - decimals;
                     Quantity.Format := DecimalSI |}
          | None =>
              match parseExponent suffix with
              | Some e =>
                  inl {| Quantity.unscaled := mantissa;
                         Quantity.scale := e - decimals;
                         Quantity.Format := DecimalExponent |}
              | None => inr ErrSuffix
              end
          end
      end
  end.

(** ** A reference cluster

    An in-memory API server in the manner of controller-runtime's fake
    client: objects are stored by namespace and name, a [Get] of an absent
    object is a not-found status, a [Create] of a present one an
    already-exists status, and every write stamps the object with the next
    revision.  While [outage] is set every request fails with that error. *)

Module Cluster.
Record t := {
  installations : gmap (string * string) Installation.t;
  jobs : gmap (string * string) Job.t;
  persistentvolumeclaims : gmap (string * string) PersistentVolumeClaim.t;
  configmaps : gmap (string * string) ConfigMap.t;
  revision : N;
  outage : option error
}.

Definition key (k : NamespacedName.t) : string * string :=
  (NamespacedName.Namespace k, NamespacedName.Name k).

Definition metaKey (m : ObjectMeta.t) : string * string :=
  (ObjectMeta.Namespace m, ObjectMeta.Name m).

Definition notFound (k : string * string) : error :=
  StatusError StatusReasonNotFound (k.1 +:+ "/" +:+ k.2 +:+ " not found").

Definition alreadyExists (k : string * string) : error :=
  StatusError StatusReasonAlreadyExists (k.1 +:+ "/" +:+ k.2 +:+ " already exists").

Definition conflict (k : string * string) : error :=
  StatusError StatusReasonConflict (k.1 +:+ "/" +:+ k.2 +:+ " has been modified").

Definition get {A} (store : gmap (string * string) A) (k : NamespacedName.t)
    (c : t) : (A + error) * t :=
  match outage c with
  | Some err => (inr err, c)
  | None =>
      match store !! key k with
      | Some obj => (inl obj, c)
      | None => (inr (notFound (key k)), c)
      end
  end.

Definition stamp (c : t) (m : ObjectMeta.t) : ObjectMeta.t :=
  ObjectMeta.setResourceVersion (pretty (revision c)) m.

Definition createPersistentVolumeClaim (obj : PersistentVolumeClaim.t) (c : t) :
    option error * t :=
  let k := metaKey (PersistentVolumeClaim.ObjectMeta obj) in
  match outage c with
  | Some err => (Some err, c)
  | None =>
      match persistentvolumeclaims c !! k with
      | Some _ => (Some (alreadyExists k), c)
      | None =>
          let stored :=
            PersistentVolumeClaim.setObjectMeta
              (stamp c (PersistentVolumeClaim.ObjectMeta obj)) obj in
          (None,
           {| installations := installations c;
              jobs := jobs c;
              persistentvolumeclaims := <[k := stored]> (persistentvolumeclaims c);
              configmaps := configmaps c;
              revision := N.succ (revision c);
              outage := outage c |})
      end
  end.

Definition createJob (obj : Job.t) (c : t) : option error * t :=
  let k := metaKey (Job.ObjectMeta obj) in
  match outage c with
  | Some err => (Some err, c)
  | None =>
      match jobs c !! k with
      | Some _ => (Some (alreadyExists k), c)
      | None =>
          let stored := Job.setObjectMeta (stamp c (Job.ObjectMeta obj)) obj in
          (None,
           {| installations := installations c;
              jobs := <[k := stored]> (jobs c);
              persistentvolumeclaims := persistentvolumeclaims c;
              configmaps := configmaps c;
              revision := N.succ (revision c);
              outage := outage c |})
      end
  end.

(** The write of an Installation: [withStatus] tells the status
    subresource ([Status().Update], which replaces only the status) from
    the main resource ([Update], which keeps the stored status). *)
Definition updateInstallation (withStatus : bool) (obj : Installation.t) (c : t) :
    option error * t :=
  let k := metaKey (Installation.ObjectMeta obj) in
  match outage c with
  | Some err => (Some err, c)
  | None =>
      match installations c !! k with
      | None => (Some (notFound k), c)
      | Some old =>
          if decide (Installation.ResourceVersion obj = Installation.ResourceVersion old)
          then
            let new :=
              if withStatus
              then Installation.setStatus (Installation.Status obj) old
              else Installation.setStatus (Installation.Status old) obj in
            let stored :=
              Installation.setObjectMeta (stamp c (Installation.ObjectMeta new)) new in
            (None,
             {| installations := <[k := stored]> (installations c);
                jobs := jobs c;
                persistentvolumeclaims := persistentvolumeclaims c;
                configmaps := configmaps c;
                revision := N.succ (revision c);
                outage := outage c |})
          else (Some (conflict k), c)
      end
  end.

Definition rangeInOrder (m : gmap string string) :
    { kvs : list (string * string) | kvs ≡ₚ map_to_list m } :=
  exist _ (map_to_list m) (Permutation_refl _).

Definition apiserver : Handler t :=
  λ T call,
    match call in Call T return t → T * t with
    | GetInstallation k => λ c, get (installations c) k c
    | GetJob k => λ c, get (jobs c) k c
    | GetConfigMap k => λ c, get (configmaps c) k c
    | CreatePersistentVolumeClaim obj _ => createPersistentVolumeClaim obj
    | CreateJob obj _ => createJob obj
    | UpdateInstallation obj => updateInstallation false obj
    | StatusUpdateInstallation obj => updateInstallation true obj
    | LogInfo _ _ => λ c, (tt, c)
    | RangeParameters m => λ c, (rangeInOrder m, c)
    end.

Definition empty : t :=
  {| installations := ∅; jobs := ∅; persistentvolumeclaims := ∅;
     configmaps := ∅; revision := 1%N; outage := None |}.
End Cluster.

(** The reconciler against the reference cluster, with the reference
    library functions. *)
Definition reconcileOn (c : Cluster.t) (req : Request.t) :
    (Result.t * option error) * Cluster.t * list Event :=
  run Cluster.apiserver (Reconcile parseQuantityGrammar porterIsCoreAction quotePlain req) c.

(** ** The scenario of the specification: Installation "wordpress" at
    revision "5" in namespace "default". *)

Definition wordpressSpec : InstallationSpec.t :=
  {| InstallationSpec.Reference := "example.com/wordpress-bundle:v1";
     InstallationSpec.Action := "install";
     InstallationSpec.PorterVersion := "";
     InstallationSpec.ServiceAccount := "";
     InstallationSpec.CredentialSets := [];
     InstallationSpec.ParameterSets := [];
     InstallationSpec.Parameters := ∅;
     InstallationSpec.OutputsVolumeSize := "" |}.

Definition wordpressMeta : ObjectMeta.t :=
  {| ObjectMeta.Name := "wordpress";
     ObjectMeta.GenerateName := "";
     ObjectMeta.Namespace := "default";
     ObjectMeta.UID := "uid-wordpress";
     ObjectMeta.ResourceVersion := "5";
     ObjectMeta.Labels := ∅;
     ObjectMeta.OwnerReferences := [] |}.

Definition wordpress : Installation.t :=
  {| Installation.TypeMeta :=
       {| TypeMeta.Kind := "Installation"; TypeMeta.APIVersion := "porter.sh/v1" |};
     Installation.ObjectMeta := wordpressMeta;
     Installation.Spec := wordpressSpec;
     Installation.Status := InstallationStatus.zero |}.

Definition wordpressRequest : Request.t :=
  {| Request.NamespacedName :=
       {| NamespacedName.Namespace := "default"; NamespacedName.Name := "wordpress" |} |}.

Definition wordpressCluster : Cluster.t :=
  {| Cluster.installations := {[ ("default", "wordpress") := wordpress ]};
     Cluster.jobs := ∅;
     Cluster.persistentvolumeclaims := ∅;
     Cluster.configmaps := ∅;
     Cluster.revision := 6%N;
     Cluster.outage := None |}.

(** * Vocabulary of the properties

    The observations, shapes and scenarios the statements below are made of. *)

Section Vocabulary.

Variable ParseQuantity : string → Quantity.t + error.
Variable IsCoreAction : string → bool.
Variable Quote : string → string.

(** ** Configuration resolution *)

(** The reply to the first configmap lookup of a trace, if there is one. *)
Definition configReply (tr : list Event) : option (ConfigMap.t + error) :=
  snd <$> head (configLookups tr).

(** The precedence chain in the words of the specification: the override of
    the Installation if it is not empty; else the value under [key] in the
    namespace's configmap if that was retrieved and has the key; else the
    hard-coded default. *)
Definition resolved (override : string) (config : option (ConfigMap.t + error))
    (key hardDefault : string) : string :=
  if decide (override ≠ "") then override
  else
    match config with
    | Some (inl cfg) => default hardDefault (ConfigMap.Data cfg !! key)
    | _ => hardDefault
    end.

(** What a resolution asks the cluster: nothing when the Installation
    carries the override, else exactly one lookup, of the configmap "porter"
    in the Installation's namespace. *)
Definition consulted (inst : Installation.t) (override : string) (tr : list Event) : Prop :=
  if decide (override ≠ "") then configLookups tr = []
  else ∃ reply, configLookups tr = [(porterConfigKey inst, reply)].

(** Events that only read configuration or write a log line. *)
Definition is_lookup_or_log (e : Event) : bool :=
  match e with
  | EvGetConfigMap _ _ | EvLogInfo _ _ => true
  | _ => false
  end.

(** A trace made of configmap lookups and log lines only. *)
Definition readOnly (tr : list Event) : Prop :=
  Forall (λ e, is_lookup_or_log e = true) tr.

(** [getOutputsVolumeSize]'s return value for a resolved size string. *)
Definition parsedSize (size : string) : Quantity.t + error :=
  match ParseQuantity size with
  | inl qty => inl qty
  | inr err => inr (withMessage err ("invalid outputsVolumeSize " +:+ size))
  end.

(** The pull policy [getPorterImageVersion] derives from the version. *)
Definition pullPolicyFor (porterVersion : string) : PullPolicy :=
  if bool_decide (porterVersion = "canary") || bool_decide (porterVersion = "latest")
  then PullAlways else PullIfNotPresent.

Definition creatingLog (jobName : string) (inst : Installation.t) : Event :=
  EvLogInfo ("creating porter job " +:+ Installation.Namespace inst +:+ "/"
               +:+ jobName +:+ " for Installation "
               +:+ Installation.Namespace inst +:+ "/"
               +:+ Installation.Name inst) [].

Definition jobErrorMessage (inst : Installation.t) : string :=
  "error creating job for Installation "
    +:+ Installation.Namespace inst +:+ "/"
    +:+ Installation.Name inst +:+ "@"
    +:+ Installation.ResourceVersion inst.

Definition porterImage (porterVersion : string) : string :=
  "ghcr.io/getporter/porter:kubernetes-" +:+ porterVersion.

(** The three ways [createJobForInstallation] can go: the volume size is
    rejected; the volume claim is refused; the job is submitted. *)
Inductive createJobTrace (jobName : string) (inst : Installation.t) :
    list Event → option error → Prop :=
| sizeRejected tr0 err :
    exec (getOutputsVolumeSize ParseQuantity Quote inst) tr0 (inr err) →
    createJobTrace jobName inst (creatingLog jobName inst :: tr0) (Some err)
| claimRefused tr0 qty err :
    exec (getOutputsVolumeSize ParseQuantity Quote inst) tr0 (inl qty) →
    createJobTrace jobName inst
      (creatingLog jobName inst
         :: tr0 ++ [EvCreatePersistentVolumeClaim
                      (scratchVolumeClaim jobName inst qty) [] (Some err)])
      (Some err)
| jobSubmitted tr0 qty tr1 porterVersion pullPolicy tr2 serviceAccount params reply :
    exec (getOutputsVolumeSize ParseQuantity Quote inst) tr0 (inl qty) →
    exec (getPorterImageVersion Quote inst) tr1 (porterVersion, pullPolicy) →
    exec (getPorterAgentServiceAccount Quote inst) tr2 serviceAccount →
    params ≡ₚ map_to_list (InstallationSpec.Parameters (Installation.Spec inst)) →
    createJobTrace jobName inst
      (creatingLog jobName inst
         :: tr0
         ++ EvCreatePersistentVolumeClaim (scratchVolumeClaim jobName inst qty) [] None
         :: tr1
         ++ EvLogInfo ("Using " +:+ porterImage porterVersion) []
         :: tr2
         ++ [EvRangeParameters
               (InstallationSpec.Parameters (Installation.Spec inst)) params;
             EvCreateJob
               (porterJobFor jobName inst (scratchVolumeClaim jobName inst qty)
                  (porterImage porterVersion) pullPolicy serviceAccount
                  (porterArgs IsCoreAction inst params))
               [CreateOptions.zero] reply])
      (Wrapf reply (jobErrorMessage inst)).

Definition jobNameFor (req : Request.t) (inst : Installation.t) : string :=
  Request.Name req +:+ "-" +:+ Installation.ResourceVersion inst.

Definition jobKeyFor (req : Request.t) (inst : Installation.t) : NamespacedName.t :=
  {| NamespacedName.Name := jobNameFor req inst;
     NamespacedName.Namespace := Request.Namespace req |}.

Definition deletedLog (req : Request.t) : Event :=
  EvLogInfo "Installation has been deleted"
    [LogString "installation";
     LogString (Request.Namespace req +:+ "/" +:+ Request.Name req)].

Definition queryErrorMessage (req : Request.t) : string :=
  "could not query for the bundle installation job "
    +:+ Request.Namespace req +:+ "/" +:+ "".

(** The four ways [Reconcile] can go. *)
Inductive reconcileTrace (req : Request.t) :
    list Event → Result.t * option error → Prop :=
| installationNotLoaded err :
    reconcileTrace req
      [EvGetInstallation (Request.NamespacedName req) (inr err); deletedLog req]
      ({| Result.Requeue := false; Result.RequeueAfter := 0 |}, None)
| jobFound inst porterJob :
    reconcileTrace req
      [EvGetInstallation (Request.NamespacedName req) (inl inst);
       EvGetJob (jobKeyFor req inst) (inl porterJob)]
      (Result.zero, None)
| jobQueryFailed inst err :
    IsNotFound err = false →
    reconcileTrace req
      [EvGetInstallation (Request.NamespacedName req) (inl inst);
       EvGetJob (jobKeyFor req inst) (inr err)]
      (Result.zero, Some (withMessage err (queryErrorMessage req)))
| jobMissing inst err tr res :
    IsNotFound err = true →
    createJobTrace (jobNameFor req inst) inst tr res →
    reconcileTrace req
      (EvGetInstallation (Request.NamespacedName req) (inl inst)
         :: EvGetJob (jobKeyFor req inst) (inr err)
         :: tr)
      (Result.zero, res).

(** The creations of a pass and the error it returns: nothing is created;
    or the volume claim alone is attempted and refused; or the volume
    claim is created and the job submitted. *)
Inductive passCreations (jobName : string) (inst : Installation.t) :
    list Event → option error → Prop :=
| noCreation err :
    passCreations jobName inst [] (Some err)
| claimOnly qty err :
    passCreations jobName inst
      [EvCreatePersistentVolumeClaim (scratchVolumeClaim jobName inst qty) []
         (Some err)]
      (Some err)
| claimThenJob qty porterVersion pullPolicy serviceAccount params reply :
    params ≡ₚ map_to_list (InstallationSpec.Parameters (Installation.Spec inst)) →
    passCreations jobName inst
      [EvCreatePersistentVolumeClaim (scratchVolumeClaim jobName inst qty) [] None;
       EvCreateJob
         (porterJobFor jobName inst (scratchVolumeClaim jobName inst qty)
            (porterImage porterVersion) pullPolicy serviceAccount
            (porterArgs IsCoreAction inst params))
         [CreateOptions.zero] reply]
      (Wrapf reply (jobErrorMessage inst)).

(** The pass began by loading [inst]. *)
Definition loads (req : Request.t) (inst : Installation.t) (tr : list Event) : Prop :=
  head tr = Some (EvGetInstallation (Request.NamespacedName req) (inl inst)).

(** The pass found no job and went on to the creation path. *)
Definition reachesCreation (tr : list Event) : Prop :=
  ∃ key err, tr !! 1%nat = Some (EvGetJob key (inr err)) ∧ IsNotFound err = true.

(** The error a creation of the trace was refused with. *)
Definition creationError (e : Event) : option error :=
  match e with
  | EvCreatePersistentVolumeClaim _ _ reply | EvCreateJob _ _ reply => reply
  | _ => None
  end.

Definition creationRefused (err : error) (tr : list Event) : Prop :=
  ∃ e, e ∈ tr ∧ creationError e = Some err.

(** The volume-size string a pass resolves: the three-tier choice, with
    the first configmap lookup of the pass as the namespace default. *)
Definition resolvedVolumeSize (inst : Installation.t) (tr : list Event) : string :=
  resolved (InstallationSpec.OutputsVolumeSize (Installation.Spec inst))
    (configReply tr) "outputsVolumeSize" "128Mi".

Definition jobQuery (e : Event) : option NamespacedName.t :=
  match e with
  | EvGetJob key _ => Some key
  | _ => None
  end.

(** The keys of the job queries of a trace, in order. *)
Definition jobQueries (tr : list Event) : list NamespacedName.t := omap jobQuery tr.

(** The owner reference [createJobForInstallation] writes. *)
Definition ownerReferenceTo (inst : Installation.t) : OwnerReference.t :=
  {| OwnerReference.APIVersion := Installation.APIVersion inst;
     OwnerReference.Kind := Installation.Kind inst;
     OwnerReference.Name := Installation.Name inst;
     OwnerReference.UID := Installation.UID inst;
     OwnerReference.Controller := None;
     OwnerReference.BlockOwnerDeletion := Some true |}.


(** The same trace, had the Installation loaded at its head carried the
    status [st]. *)
Definition withLoadedStatus (st : InstallationStatus.t) (tr : list Event) : list Event :=
  match tr with
  | EvGetInstallation key (inl inst) :: rest =>
      EvGetInstallation key (inl (Installation.setStatus st inst)) :: rest
  | _ => tr
  end.

(** What a call other than a write to an Installation leaves in place:
    the Installations, the outage, and every job already there. *)
Definition preserved (c c' : Cluster.t) : Prop :=
  Cluster.installations c' = Cluster.installations c ∧
  Cluster.outage c' = Cluster.outage c ∧
  ∀ k, is_Some (Cluster.jobs c !! k) → is_Some (Cluster.jobs c' !! k).

(** Every Installation of the cluster is stored under its own namespace
    and name. *)
Definition keyedByIdentity (c : Cluster.t) : Prop :=
  ∀ k inst, Cluster.installations c !! k = Some inst →
            Cluster.metaKey (Installation.ObjectMeta inst) = k.

End Vocabulary.

(** ** Concrete passes on the reference cluster *)

Abbreviation ReconcileRef := (Reconcile parseQuantityGrammar porterIsCoreAction quotePlain).

(** ** The wordpress pass: no job yet, no namespace configuration *)

Definition wordpressPass := reconcileOn wordpressCluster wordpressRequest.
Definition wordpressTrace : list Event := wordpressPass.2.
Definition wordpressResult : Result.t * option error := wordpressPass.1.1.
Definition wordpressAfter : Cluster.t := wordpressPass.1.2.

Definition quantity128Mi : Quantity.t :=
  {| Quantity.unscaled := 134217728; Quantity.scale := 0; Quantity.Format := BinarySI |}.

Definition wordpressClaim : PersistentVolumeClaim.t :=
  scratchVolumeClaim "wordpress-5" wordpress quantity128Mi.

Definition wordpressJob : Job.t :=
  porterJobFor "wordpress-5" wordpress wordpressClaim
    "ghcr.io/getporter/porter:kubernetes-latest" PullAlways ""
    ["install"; "wordpress"; "--reference=example.com/wordpress-bundle:v1";
     "--debug"; "--debug-plugins"; "--driver=kubernetes"].

(** The claim C9 makes of a created job: an owner reference back to the
    Installation among the job's owner references. *)
Definition jobOwnedBy (inst : Installation.t) (job : Job.t) : Prop :=
  ∃ ref, ref ∈ ObjectMeta.OwnerReferences (Job.ObjectMeta job) ∧
         OwnerReference.Name ref = Installation.Name inst ∧
         OwnerReference.UID ref = Installation.UID inst.

(** The claim C10 makes of a pass: the stored Installation's status got a
    job reference. *)
Definition statusPopulated (c : Cluster.t) (k : string * string) : Prop :=
  ∃ inst, Cluster.installations c !! k = Some inst ∧
          Installation.Status inst ≠ InstallationStatus.zero.

(** ** The orphaned volume: the claim "wordpress-5" exists, the job does not *)

Definition orphanCluster : Cluster.t :=
  {| Cluster.installations := {[ ("default", "wordpress") := wordpress ]};
     Cluster.jobs := ∅;
     Cluster.persistentvolumeclaims := {[ ("default", "wordpress-5") := wordpressClaim ]};
     Cluster.configmaps := ∅;
     Cluster.revision := 7%N;
     Cluster.outage := None |}.

Definition orphanPass := reconcileOn orphanCluster wordpressRequest.

Definition claimExists : error := Cluster.alreadyExists ("default", "wordpress-5").

(** The claim C3 makes of a pass: a creation refused because the object
    already exists leaves the pass without error. *)
Definition alreadyExistsIsSuccess (tr : list Event) (res : Result.t * option error) : Prop :=
  ∀ err, creationRefused err tr → IsAlreadyExists err = true → res.2 = None.

(** ** A namespace with defaults *)

Definition porterConfig : ConfigMap.t :=
  {| ConfigMap.ObjectMeta :=
       {| ObjectMeta.Name := "porter";
          ObjectMeta.GenerateName := "";
          ObjectMeta.Namespace := "default";
          ObjectMeta.UID := "uid-porter";
          ObjectMeta.ResourceVersion := "2";
          ObjectMeta.Labels := ∅;
          ObjectMeta.OwnerReferences := [] |};
     ConfigMap.Data :=
       list_to_map [("porterVersion", "v0.38.0"); ("outputsVolumeSize", "256Mi")] |}.

Definition configuredCluster : Cluster.t :=
  {| Cluster.installations := {[ ("default", "wordpress") := wordpress ]};
     Cluster.jobs := ∅;
     Cluster.persistentvolumeclaims := ∅;
     Cluster.configmaps := {[ ("default", "porter") := porterConfig ]};
     Cluster.revision := 6%N;
     Cluster.outage := None |}.

Definition configuredVersionTrace : list Event :=
  (run Cluster.apiserver (getPorterImageVersion quotePlain wordpress) configuredCluster).2.

(** ** A custom action with credentials and parameters *)

Definition mysqlSpec : InstallationSpec.t :=
  {| InstallationSpec.Reference := "example.com/mysql-bundle:v2";
     InstallationSpec.Action := "status-check";
     InstallationSpec.PorterVersion := "v1.2.3";
     InstallationSpec.ServiceAccount := "porter-agent";
     InstallationSpec.CredentialSets := ["azure"; "kube"];
     InstallationSpec.ParameterSets := ["prod"];
     InstallationSpec.Parameters := {[ "replicas" := "3" ]};
     InstallationSpec.OutputsVolumeSize := "64Mi" |}.

Definition mysql : Installation.t :=
  {| Installation.TypeMeta :=
       {| TypeMeta.Kind := "Installation"; TypeMeta.APIVersion := "porter.sh/v1" |};
     Installation.ObjectMeta :=
       {| ObjectMeta.Name := "mysql";
          ObjectMeta.GenerateName := "";
          ObjectMeta.Namespace := "default";
          ObjectMeta.UID := "uid-mysql";
          ObjectMeta.ResourceVersion := "12";
          ObjectMeta.Labels := ∅;
          ObjectMeta.OwnerReferences := [] |};
     Installation.Spec := mysqlSpec;
     Installation.Status := InstallationStatus.zero |}.

Definition mysqlRequest : Request.t :=
  {| Request.NamespacedName :=
       {| NamespacedName.Namespace := "default"; NamespacedName.Name := "mysql" |} |}.

Definition mysqlCluster : Cluster.t :=
  {| Cluster.installations := {[ ("default", "mysql") := mysql ]};
     Cluster.jobs := ∅;
     Cluster.persistentvolumeclaims := ∅;
     Cluster.configmaps := {[ ("default", "porter") := porterConfig ]};
     Cluster.revision := 13%N;
     Cluster.outage := None |}.

Definition mysqlPass := reconcileOn mysqlCluster mysqlRequest.

Definition mysqlJob : Job.t :=
  porterJobFor "mysql-12" mysql
    (scratchVolumeClaim "mysql-12" mysql
       {| Quantity.unscaled := 67108864; Quantity.scale := 0;
          Quantity.Format := BinarySI |})
    "ghcr.io/getporter/porter:kubernetes-v1.2.3" PullIfNotPresent "porter-agent"
    ["invoke"; "--action=status-check"; "mysql";
     "--reference=example.com/mysql-bundle:v2";
     "--debug"; "--debug-plugins"; "--driver=kubernetes";
     "-c=azure"; "-c=kube"; "-p=prod"; "--param=replicas=3"].

(** ** A malformed volume size *)

Definition notasize : Installation.t :=
  {| Installation.TypeMeta := Installation.TypeMeta wordpress;
     Installation.ObjectMeta := wordpressMeta;
     Installation.Spec :=
       {| InstallationSpec.Reference := "example.com/wordpress-bundle:v1";
          InstallationSpec.Action := "install";
          InstallationSpec.PorterVersion := "";
          InstallationSpec.ServiceAccount := "";
          InstallationSpec.CredentialSets := [];
          InstallationSpec.ParameterSets := [];
          InstallationSpec.Parameters := ∅;
          InstallationSpec.OutputsVolumeSize := "notasize" |};
     Installation.Status := InstallationStatus.zero |}.

Definition notasizeCluster : Cluster.t :=
  {| Cluster.installations := {[ ("default", "wordpress") := notasize ]};
     Cluster.jobs := ∅;
     Cluster.persistentvolumeclaims := ∅;
     Cluster.configmaps := {[ ("default", "porter") := porterConfig ]};
     Cluster.revision := 6%N;
     Cluster.outage := None |}.

Definition notasizePass := reconcileOn notasizeCluster wordpressRequest.

(** ** An unreachable API server *)

Definition connectionRefused : error :=
  errorString "dial tcp 10.96.0.1:443: connect: connection refused".

Definition outageCluster : Cluster.t :=
  {| Cluster.installations := {[ ("default", "wordpress") := wordpress ]};
     Cluster.jobs := ∅;
     Cluster.persistentvolumeclaims := ∅;
     Cluster.configmaps := ∅;
     Cluster.revision := 6%N;
     Cluster.outage := Some connectionRefused |}.

(** ** Further observations *)

(** Whether a string contains a hyphen. *)
Fixpoint hasHyphen (s : string) : bool :=
  match s with
  | EmptyString => false
  | String a rest => if decide (a = "-"%char) then true else hasHyphen rest
  end.

(** The namespace a client call addresses; the logger and the map iteration
    address none. *)
Definition eventNamespace (e : Event) : option string :=
  match e with
  | EvGetInstallation key _ | EvGetJob key _ | EvGetConfigMap key _ =>
      Some (NamespacedName.Namespace key)
  | EvCreatePersistentVolumeClaim obj _ _ => Some (PersistentVolumeClaim.Namespace obj)
  | EvCreateJob obj _ _ => Some (Job.Namespace obj)
  | EvUpdateInstallation obj _ | EvStatusUpdateInstallation obj _ =>
      Some (Installation.Namespace obj)
  | EvLogInfo _ _ | EvRangeParameters _ _ => None
  end.


(** Every configmap lookup of the trace got the reply [reply]. *)
Definition stableConfig (reply : ConfigMap.t + error) (tr : list Event) : Prop :=
  ∀ k r, (k, r) ∈ configLookups tr → r = reply.

(** What the reference cluster answers when asked for the configmap
    "porter" of the Installation's namespace. *)
Definition storedConfig (c : Cluster.t) (inst : Installation.t) : ConfigMap.t + error :=
  (Cluster.get (Cluster.configmaps c) (porterConfigKey inst) c).1.

(** The single container of a job's pod template, if it has exactly one. *)
Definition soleContainer (job : Job.t) : option Container.t :=
  match PodSpec.Containers (PodTemplateSpec.Spec (JobSpec.Template (Job.Spec job))) with
  | [c] => Some c
  | _ => None
  end.

(** ** Further passes *)

(** wordpress in the namespace with defaults. *)
Definition configuredPass := reconcileOn configuredCluster wordpressRequest.

Definition quantity256Mi : Quantity.t :=
  {| Quantity.unscaled := 268435456; Quantity.scale := 0; Quantity.Format := BinarySI |}.

Definition configuredClaim : PersistentVolumeClaim.t :=
  scratchVolumeClaim "wordpress-5" wordpress quantity256Mi.

Definition configuredJob : Job.t :=
  porterJobFor "wordpress-5" wordpress configuredClaim
    "ghcr.io/getporter/porter:kubernetes-v0.38.0" PullIfNotPresent ""
    ["install"; "wordpress"; "--reference=example.com/wordpress-bundle:v1";
     "--debug"; "--debug-plugins"; "--driver=kubernetes"].

(** wordpress after an edit that moved it to revision "6", the job of
    revision "5" still there. *)
Definition wordpress6 : Installation.t :=
  Installation.setObjectMeta (ObjectMeta.setResourceVersion "6" wordpressMeta) wordpress.

Definition revisedCluster : Cluster.t :=
  {| Cluster.installations := {[ ("default", "wordpress") := wordpress6 ]};
     Cluster.jobs := Cluster.jobs wordpressAfter;
     Cluster.persistentvolumeclaims := Cluster.persistentvolumeclaims wordpressAfter;
     Cluster.configmaps := ∅;
     Cluster.revision := 9%N;
     Cluster.outage := None |}.

Definition revisedPass := reconcileOn revisedCluster wordpressRequest.

(** A pass whose job query is answered with a timeout. *)
Definition queryTimeout : error :=
  StatusError StatusReasonTimeout "the server was unable to return a response in time".

Definition timedOutTrace : list Event :=
  [EvGetInstallation (Request.NamespacedName wordpressRequest) (inl wordpress);
   EvGetJob {| NamespacedName.Name := "wordpress-5";
               NamespacedName.Namespace := "default" |} (inr queryTimeout)].

(** * Properties *)

(** ** Program trees and traces *)

Lemma exec_ret {A} (x : A) tr a : exec (Ret x) tr a ↔ tr = [] ∧ a = x.
Proof. reflexivity. Qed.

Lemma exec_call {T} (c : Call T) tr a :
  exec (call c) tr a ↔ ∃ r, tr = [observe c r] ∧ a = r.
Proof.
  unfold call; simpl. split.
  - intros (r & tr' & -> & -> & ->). eauto.
  - intros (r & -> & ->). exists r, []. auto.
Qed.

Lemma exec_bind {A B} (p : Prog A) (f : A → Prog B) tr b :
  exec (p ≫= f) tr b ↔
  ∃ a tr1 tr2, tr = tr1 ++ tr2 ∧ exec p tr1 a ∧ exec (f a) tr2 b.
Proof.
  unfold mbind, Prog_mbind. revert tr. induction p as [x | T c k IH]; intros tr; simpl.
  - split.
    + intros H. exists x, [], tr. auto.
    + intros (a & tr1 & tr2 & -> & [-> ->] & H). exact H.
  - split.
    + intros (r & tr' & -> & H). apply IH in H as (a & tr1 & tr2 & -> & H1 & H2).
      exists a, (observe c r :: tr1), tr2. split; [reflexivity | split; [| exact H2]].
      exists r, tr1. auto.
    + intros (a & tr1 & tr2 & -> & (r & tr' & -> & H1) & H2).
      exists r, (tr' ++ tr2). split; [reflexivity |]. apply IH. eauto 6.
Qed.

(** A run against any client is one of the executions of the program. *)
Lemma run_exec {St A} (h : Handler St) (p : Prog A) s a s' tr :
  run h p s = (a, s', tr) → exec p tr a.
Proof.
  revert s tr. induction p as [x | T c k IH]; intros s tr; simpl.
  - intros [= <- <- <-]. auto.
  - destruct (h T c s) as [r s1] eqn:Hh.
    destruct (run h (k r) s1) as [[a' s2] tr'] eqn:Hr.
    intros [= <- <- <-]. exists r, tr'. split; [reflexivity |]. eauto.
Qed.

Lemma creations_app tr1 tr2 : creations (tr1 ++ tr2) = creations tr1 ++ creations tr2.
Proof. apply List.filter_app. Qed.

Lemma updates_app tr1 tr2 : updates (tr1 ++ tr2) = updates tr1 ++ updates tr2.
Proof. apply List.filter_app. Qed.

Lemma configLookups_app tr1 tr2 :
  configLookups (tr1 ++ tr2) = configLookups tr1 ++ configLookups tr2.
Proof. apply omap_app. Qed.

Lemma readOnly_nil : readOnly [].
Proof. constructor. Qed.

Lemma readOnly_app tr1 tr2 : readOnly tr1 → readOnly tr2 → readOnly (tr1 ++ tr2).
Proof. intros H1 H2. apply Forall_app. split; assumption. Qed.

Lemma readOnly_log msg kvs tr : readOnly tr → readOnly (EvLogInfo msg kvs :: tr).
Proof. intros H. constructor; [reflexivity | exact H]. Qed.

Lemma readOnly_lookup key reply tr :
  readOnly tr → readOnly (EvGetConfigMap key reply :: tr).
Proof. intros H. constructor; [reflexivity | exact H]. Qed.

Lemma readOnly_creations tr : readOnly tr → creations tr = [].
Proof.
  induction 1 as [| e tr He _ IH]; [reflexivity |].
  unfold creations in *. simpl. destruct e; try discriminate He; exact IH.
Qed.

Lemma readOnly_updates tr : readOnly tr → updates tr = [].
Proof.
  induction 1 as [| e tr He _ IH]; [reflexivity |].
  unfold updates in *. simpl. destruct e; try discriminate He; exact IH.
Qed.

Lemma readOnly_elem_of tr e : readOnly tr → e ∈ tr → is_lookup_or_log e = true.
Proof. intros H Hin. exact (proj1 (Forall_forall _ _) H e Hin). Qed.

Lemma configLookups_log msg kvs tr :
  configLookups (EvLogInfo msg kvs :: tr) = configLookups tr.
Proof. reflexivity. Qed.

Section Resolution.

Variable ParseQuantity : string → Quantity.t + error.
Variable Quote : string → string.

Lemma warnNoConfig_exec r tr u :
  exec (warnNoConfig Quote r) tr u → readOnly tr ∧ configLookups tr = [].
Proof.
  destruct r as [cfg | err]; simpl.
  - intros [-> _]. split; [apply readOnly_nil | reflexivity].
  - intros (_ & tr' & -> & -> & _). split; [| reflexivity].
    apply readOnly_log, readOnly_nil.
Qed.

(** The shape the three resolvers share: override, else configmap, else
    default, each branch with its log line. *)
Lemma tier_exec inst override key dflt msgOverride msgConfig tr v :
  exec (if decide (override ≠ "") then
          call (LogInfo (msgOverride +:+ override) []);; Ret override
        else
          r ← call (GetConfigMap (porterConfigKey inst));
          let cfg := configMapOrZero r in
          warnNoConfig Quote r;;
          match ConfigMap.Data cfg !! key with
          | Some v => call (LogInfo (msgConfig +:+ v) []);; Ret v
          | None => Ret dflt
          end) tr v →
  readOnly tr ∧ consulted inst override tr ∧
  v = resolved override (configReply tr) key dflt.
Proof.
  unfold consulted, resolved. destruct (decide (override ≠ "")) as [Hne | He].
  - intros H. apply exec_bind in H as (u & tr1 & tr2 & -> & H1 & [-> ->]).
    apply exec_call in H1 as (r & -> & _). simpl.
    split; [apply readOnly_log, readOnly_nil | auto].
  - intros H. apply exec_bind in H as (r & tr1 & tr2 & -> & H1 & H2).
    apply exec_call in H1 as (r' & -> & ->). simpl in H2.
    apply exec_bind in H2 as (u & tr3 & tr4 & -> & H3 & H4).
    apply warnNoConfig_exec in H3 as [Hro Hcl].
    simpl app.
    assert (Hlook : configLookups (EvGetConfigMap (porterConfigKey inst) r'
                                     :: tr3 ++ tr4)
                    = (porterConfigKey inst, r') :: configLookups tr4).
    { change (configLookups (EvGetConfigMap (porterConfigKey inst) r' :: tr3 ++ tr4))
        with ((porterConfigKey inst, r') :: configLookups (tr3 ++ tr4)).
      rewrite configLookups_app, Hcl. reflexivity. }
    assert (Htail : readOnly tr4 ∧ configLookups tr4 = [] ∧
                    v = default dflt (ConfigMap.Data (configMapOrZero r') !! key)).
    { destruct (ConfigMap.Data (configMapOrZero r') !! key) as [x |].
      - destruct H4 as (? & tr5 & -> & -> & ->).
        split; [apply readOnly_log, readOnly_nil | auto].
      - destruct H4 as [-> ->]. split; [apply readOnly_nil | auto]. }
    destruct Htail as (Hro4 & Hcl4 & ->).
    split; [| split].
    + apply readOnly_lookup, readOnly_app; assumption.
    + exists r'. rewrite Hlook, Hcl4. reflexivity.
    + unfold configReply. rewrite Hlook. simpl.
      destruct r' as [cfg | err]; [reflexivity |]. simpl.
      rewrite lookup_empty. reflexivity.
Qed.

Lemma getOutputsVolumeSize_exec inst tr res :
  exec (getOutputsVolumeSize ParseQuantity Quote inst) tr res →
  let override := InstallationSpec.OutputsVolumeSize (Installation.Spec inst) in
  readOnly tr ∧ consulted inst override tr ∧
  res = parsedSize ParseQuantity (resolved override (configReply tr) "outputsVolumeSize" "128Mi").
Proof.
  unfold getOutputsVolumeSize. intros H. cbv zeta.
  apply exec_bind in H as (v & tr1 & tr2 & -> & H1 & H2).
  apply tier_exec in H1 as (Hro & Hcons & Hv).
  assert (Htail : readOnly tr2 ∧ configLookups tr2 = [] ∧ res = parsedSize ParseQuantity v).
  { unfold parsedSize. destruct (ParseQuantity v) as [qty | err].
    - apply exec_bind in H2 as (u & tr3 & tr4 & -> & H3 & [-> ->]).
      apply exec_call in H3 as (? & -> & _).
      split; [apply readOnly_log, readOnly_nil | auto].
    - destruct H2 as [-> ->]. split; [apply readOnly_nil | auto]. }
  destruct Htail as (Hro2 & Hcl2 & ->).
  assert (Hlook : configLookups (tr1 ++ tr2) = configLookups tr1).
  { rewrite configLookups_app, Hcl2. apply app_nil_r. }
  split; [apply readOnly_app; assumption | split].
  - unfold consulted in *. rewrite Hlook. exact Hcons.
  - unfold configReply in *. rewrite Hlook, <- Hv. reflexivity.
Qed.

Lemma getPorterImageVersion_exec inst tr v pp :
  exec (getPorterImageVersion Quote inst) tr (v, pp) →
  let override := InstallationSpec.PorterVersion (Installation.Spec inst) in
  readOnly tr ∧ consulted inst override tr ∧
  v = resolved override (configReply tr) "porterVersion" "latest" ∧
  pp = pullPolicyFor v.
Proof.
  unfold getPorterImageVersion. intros H. cbv zeta.
  apply exec_bind in H as (v' & tr1 & tr2 & -> & H1 & H2).
  apply tier_exec in H1 as (Hro & Hcons & Hv).
  apply exec_bind in H2 as (u & tr3 & tr4 & -> & H3 & [-> [= -> ->]]).
  apply exec_call in H3 as (? & -> & _).
  assert (Hlook : configLookups (tr1 ++ [EvLogInfo "resolved porter image version"
                                          [LogString "version"; LogString v']] ++ [])
                  = configLookups tr1).
  { rewrite configLookups_app. apply app_nil_r. }
  split; [| split; [| split]].
  - apply readOnly_app; [assumption |]. apply readOnly_log, readOnly_nil.
  - unfold consulted in *. simpl in Hlook |- *. rewrite Hlook. exact Hcons.
  - unfold configReply in *. simpl in Hlook |- *. rewrite Hlook. exact Hv.
  - reflexivity.
Qed.

Lemma getPorterAgentServiceAccount_exec inst tr v :
  exec (getPorterAgentServiceAccount Quote inst) tr v →
  let override := InstallationSpec.ServiceAccount (Installation.Spec inst) in
  readOnly tr ∧ consulted inst override tr ∧
  v = resolved override (configReply tr) "serviceAccount" "".
Proof.
  unfold getPorterAgentServiceAccount. intros H. cbv zeta.
  apply exec_bind in H as (v' & tr1 & tr2 & -> & H1 & H2).
  apply tier_exec in H1 as (Hro & Hcons & Hv).
  apply exec_bind in H2 as (u & tr3 & tr4 & -> & H3 & [-> ->]).
  apply exec_call in H3 as (? & -> & _).
  assert (Hlook : configLookups (tr1 ++ [EvLogInfo "resolved porter agent service account"
                                          [LogString "serviceAccount"; LogString v']] ++ [])
                  = configLookups tr1).
  { rewrite configLookups_app. apply app_nil_r. }
  split; [| split].
  - apply readOnly_app; [assumption |]. apply readOnly_log, readOnly_nil.
  - unfold consulted in *. simpl in Hlook |- *. rewrite Hlook. exact Hcons.
  - unfold configReply in *. simpl in Hlook |- *. rewrite Hlook. exact Hv.
Qed.

End Resolution.

(** ** The shape of a reconciliation pass *)

Section Passes.

Variable ParseQuantity : string → Quantity.t + error.
Variable IsCoreAction : string → bool.
Variable Quote : string → string.

Lemma createJobForInstallation_exec jobName inst tr res :
  exec (createJobForInstallation ParseQuantity IsCoreAction Quote jobName inst) tr res →
  createJobTrace ParseQuantity IsCoreAction Quote jobName inst tr res.
Proof.
  unfold createJobForInstallation. intros H.
  apply exec_bind in H as (u & tr1 & tr2 & -> & H1 & H).
  apply exec_call in H1 as (? & -> & _).
  apply exec_bind in H as (r & tr0 & tr3 & -> & H0 & H).
  destruct r as [qty | err].
  - apply exec_bind in H as (e & tr4 & tr5 & -> & H4 & H).
    apply exec_call in H4 as (e' & -> & ->).
    destruct e' as [err |].
    + destruct H as [-> ->]. apply claimRefused. exact H0.
    + apply exec_bind in H as ([v pp] & tr6 & tr7 & -> & H6 & H).
      apply exec_bind in H as (u' & tr8 & tr9 & -> & H8 & H).
      apply exec_call in H8 as (? & -> & _).
      apply exec_bind in H as (sa & tr10 & tr11 & -> & H10 & H).
      apply exec_bind in H as ([params Hperm] & tr12 & tr13 & -> & H12 & H).
      apply exec_call in H12 as (? & -> & <-).
      apply exec_bind in H as (reply & tr14 & tr15 & -> & H14 & [-> ->]).
      apply exec_call in H14 as (? & -> & <-).
      exact (jobSubmitted ParseQuantity IsCoreAction Quote jobName inst tr0 qty tr6 v pp tr10 sa params _
               H0 H6 H10 Hperm).
  - destruct H as [-> ->]. rewrite app_nil_r. apply sizeRejected. exact H0.
Qed.

Lemma Reconcile_exec req tr res :
  exec (Reconcile ParseQuantity IsCoreAction Quote req) tr res →
  reconcileTrace ParseQuantity IsCoreAction Quote req tr res.
Proof.
  unfold Reconcile. intros H.
  apply exec_bind in H as (r & tr1 & tr2 & -> & H1 & H).
  apply exec_call in H1 as (r' & -> & ->).
  destruct r' as [inst | err].
  - apply exec_bind in H as (r & tr3 & tr4 & -> & H3 & H).
    apply exec_call in H3 as (r' & -> & ->).
    destruct r' as [porterJob | err].
    + destruct H as [-> ->]. apply jobFound.
    + destruct (IsNotFound err) eqn:Hnf.
      * apply exec_bind in H as (e & tr5 & tr6 & -> & H5 & H).
        apply createJobForInstallation_exec in H5.
        assert (Hres : tr6 = [] ∧ res = (Result.zero, e)).
        { destruct e; destruct H as [-> ->]; auto. }
        destruct Hres as [-> ->]. rewrite app_nil_r.
        apply jobMissing; assumption.
      * destruct H as [-> ->]. apply jobQueryFailed. exact Hnf.
  - apply exec_bind in H as (u & tr3 & tr4 & -> & H3 & [-> ->]).
    apply exec_call in H3 as (? & -> & _). apply installationNotLoaded.
Qed.

End Passes.

(** ** What a pass creates *)

Section Creations.

Variable ParseQuantity : string → Quantity.t + error.
Variable IsCoreAction : string → bool.
Variable Quote : string → string.

Lemma creations_log msg kvs tr : creations (EvLogInfo msg kvs :: tr) = creations tr.
Proof. reflexivity. Qed.

Lemma createJobTrace_creations jobName inst tr res :
  createJobTrace ParseQuantity IsCoreAction Quote jobName inst tr res →
  passCreations IsCoreAction jobName inst (creations tr) res.
Proof.
  destruct 1 as [tr0 err H0 | tr0 qty err H0
                | tr0 qty tr1 v pp tr2 sa params reply H0 H1 H2 Hperm];
    unfold creatingLog; rewrite creations_log.
  - apply getOutputsVolumeSize_exec in H0 as (Hro & _).
    rewrite (readOnly_creations _ Hro). constructor.
  - apply getOutputsVolumeSize_exec in H0 as (Hro & _).
    rewrite creations_app, (readOnly_creations _ Hro). simpl. constructor.
  - apply getOutputsVolumeSize_exec in H0 as (Hro0 & _).
    apply getPorterImageVersion_exec in H1 as (Hro1 & _).
    apply getPorterAgentServiceAccount_exec in H2 as (Hro2 & _).
    rewrite creations_app, (readOnly_creations _ Hro0). simpl.
    change (creations (tr1 ++ EvLogInfo ("Using " +:+ porterImage v) [] :: tr2 ++
              [EvRangeParameters
                 (InstallationSpec.Parameters (Installation.Spec inst)) params;
               EvCreateJob
                 (porterJobFor jobName inst (scratchVolumeClaim jobName inst qty)
                    (porterImage v) pp sa (porterArgs IsCoreAction inst params))
                 [CreateOptions.zero] reply]))
      with (creations (tr1 ++ EvLogInfo ("Using " +:+ porterImage v) [] :: tr2 ++
              [EvRangeParameters
                 (InstallationSpec.Parameters (Installation.Spec inst)) params;
               EvCreateJob
                 (porterJobFor jobName inst (scratchVolumeClaim jobName inst qty)
                    (porterImage v) pp sa (porterArgs IsCoreAction inst params))
                 [CreateOptions.zero] reply])).
    rewrite creations_app, (readOnly_creations _ Hro1), creations_log.
    rewrite creations_app, (readOnly_creations _ Hro2). simpl.
    apply claimThenJob. exact Hperm.
Qed.

Lemma reconcileTrace_creations req tr res :
  reconcileTrace ParseQuantity IsCoreAction Quote req tr res →
  creations tr = [] ∨
  ∃ inst, loads req inst tr ∧ reachesCreation tr ∧
          passCreations IsCoreAction (jobNameFor req inst) inst (creations tr) res.2 ∧
          res.1 = Result.zero.
Proof.
  destruct 1 as [err | inst porterJob | inst err Hnf | inst err tr res Hnf Hcreate];
    [left; reflexivity .. |].
  right. exists inst. split; [reflexivity | split; [| split; [| reflexivity]]].
  - exists (jobKeyFor req inst), err. split; [reflexivity | exact Hnf].
  - apply createJobTrace_creations in Hcreate. exact Hcreate.
Qed.

Lemma reconcileTrace_loads req inst tr res :
  reconcileTrace ParseQuantity IsCoreAction Quote req tr res →
  loads req inst tr → reachesCreation tr →
  passCreations IsCoreAction (jobNameFor req inst) inst (creations tr) res.2 ∧
  res.1 = Result.zero.
Proof.
  destruct 1 as [err | inst' porterJob | inst' err Hnf | inst' err tr res Hnf Hcreate];
    intros Hl (key & e & Hk & He); simpl in Hk;
    try discriminate Hl; try discriminate Hk;
    injection Hl as <-; injection Hk as <- <-; [congruence |].
  split; [| reflexivity]. apply createJobTrace_creations in Hcreate. exact Hcreate.
Qed.

End Creations.

(** ** Lists of events *)

Lemma elem_of_creations e tr : e ∈ creations tr ↔ e ∈ tr ∧ is_create e = true.
Proof. unfold creations. rewrite !list_elem_of_In. apply List.filter_In. Qed.

Lemma createJob_elem_of_creations job opts reply tr :
  EvCreateJob job opts reply ∈ tr → EvCreateJob job opts reply ∈ creations tr.
Proof. intros H. apply elem_of_creations. auto. Qed.

Lemma createClaim_elem_of_creations pvc opts reply tr :
  EvCreatePersistentVolumeClaim pvc opts reply ∈ tr →
  EvCreatePersistentVolumeClaim pvc opts reply ∈ creations tr.
Proof. intros H. apply elem_of_creations. auto. Qed.

(** The first element a filter keeps splits the list. *)
Lemma filter_first {A} (f : A → bool) (l : list A) a rest :
  List.filter f l = a :: rest →
  ∃ l1 l2, l = l1 ++ a :: l2 ∧ List.filter f l1 = [] ∧ List.filter f l2 = rest.
Proof.
  induction l as [| x l IH]; simpl; [discriminate |].
  destruct (f x) eqn:Hx.
  - intros [= -> Hl]. exists [], l. auto.
  - intros Hl. destruct (IH Hl) as (l1 & l2 & -> & H1 & H2).
    exists (x :: l1), l2. simpl. rewrite Hx. auto.
Qed.

Lemma foldl_snoc_map {A B} (f : A → B) (l : list A) (acc : list B) :
  foldl (λ acc x, acc ++ [f x]) acc l = acc ++ (f <$> l).
Proof.
  revert acc. induction l as [| x l IH]; intros acc; simpl.
  - symmetry. apply app_nil_r.
  - rewrite IH, <- app_assoc. reflexivity.
Qed.

(** * The claims *)

Section Claims.

Variable ParseQuantity : string → Quantity.t + error.
Variable IsCoreAction : string → bool.
Variable Quote : string → string.

Local Abbreviation Reconcile := (Reconcile ParseQuantity IsCoreAction Quote).
Local Abbreviation createJobForInstallation :=
  (createJobForInstallation ParseQuantity IsCoreAction Quote).

(** Every pass creates nothing, or is a creation pass for the
    Installation it loaded. *)
Lemma Reconcile_creations req tr res :
  exec (Reconcile req) tr res →
  creations tr = [] ∨
  ∃ inst, loads req inst tr ∧ reachesCreation tr ∧
          passCreations IsCoreAction (jobNameFor req inst) inst (creations tr) res.2 ∧
          res.1 = Result.zero.
Proof. intros H. eapply reconcileTrace_creations, Reconcile_exec, H. Qed.

Lemma loads_inj req inst inst' tr : loads req inst tr → loads req inst' tr → inst = inst'.
Proof. unfold loads. intros -> [= ->]. reflexivity. Qed.

(** C7 — Ordering and early abort.  In every reconciliation pass, a job
    creation is preceded by the creation of the scratch volume claim, which
    succeeded and is the first creation of the pass; and if the volume
    claim creation returns an error, the pass returns that error and no job
    creation is attempted. *)
Theorem volume_claim_before_job req tr res :
  exec (Reconcile req) tr res →
  (∀ job opts reply,
     EvCreateJob job opts reply ∈ tr →
     ∃ before after pvc,
       tr = before ++ EvCreatePersistentVolumeClaim pvc [] None :: after ∧
       creations before = [] ∧
       EvCreateJob job opts reply ∈ after) ∧
  (∀ pvc opts err,
     EvCreatePersistentVolumeClaim pvc opts (Some err) ∈ tr →
     res = (Result.zero, Some err) ∧
     ∀ job opts' reply, EvCreateJob job opts' reply ∉ tr).
Proof.
  intros H. apply Reconcile_creations in H as [Hnil | (inst & _ & _ & Hpass & Hres)].
  - split.
    + intros job opts reply Hin. apply createJob_elem_of_creations in Hin.
      rewrite Hnil in Hin. apply elem_of_nil in Hin as [].
    + intros pvc opts err Hin. apply createClaim_elem_of_creations in Hin.
      rewrite Hnil in Hin. apply elem_of_nil in Hin as [].
  - destruct res as [result err0]. simpl in Hpass, Hres. subst result.
    inversion Hpass as [err1 Hcr Herr | qty err1 Hcr Herr
                       | qty v pp sa params reply1 Hperm Hcr Herr]; subst err0.
    + split.
      * intros job opts reply Hin. apply createJob_elem_of_creations in Hin.
        rewrite <- Hcr in Hin. apply elem_of_nil in Hin as [].
      * intros pvc opts err' Hin. apply createClaim_elem_of_creations in Hin.
        rewrite <- Hcr in Hin. apply elem_of_nil in Hin as [].
    + split.
      * intros job opts reply Hin. apply createJob_elem_of_creations in Hin.
        rewrite <- Hcr in Hin. apply list_elem_of_singleton in Hin. discriminate Hin.
      * intros pvc opts err' Hin. apply createClaim_elem_of_creations in Hin.
        rewrite <- Hcr in Hin. apply list_elem_of_singleton in Hin.
        injection Hin as _ _ ->. split; [reflexivity |].
        intros job opts' reply Hjob. apply createJob_elem_of_creations in Hjob.
        rewrite <- Hcr in Hjob. apply list_elem_of_singleton in Hjob.
        discriminate Hjob.
    + split.
      * intros job opts reply Hin. apply createJob_elem_of_creations in Hin.
        symmetry in Hcr. unfold creations in Hcr.
        destruct (filter_first _ _ _ _ Hcr) as (l1 & l2 & -> & Hl1 & Hl2).
        exists l1, l2, (scratchVolumeClaim (jobNameFor req inst) inst qty).
        split; [reflexivity | split; [exact Hl1 |]].
        unfold creations in Hin. rewrite Hcr in Hin.
        apply elem_of_cons in Hin as [Hin | Hin]; [discriminate Hin |].
        rewrite <- Hl2 in Hin. apply elem_of_creations in Hin as [Hin _]. exact Hin.
      * intros pvc opts err' Hin. apply createClaim_elem_of_creations in Hin.
        rewrite <- Hcr in Hin.
        apply elem_of_cons in Hin as [Hin | Hin]; [discriminate Hin |].
        apply list_elem_of_singleton in Hin. discriminate Hin.
Qed.

(** The objects a pass creates are the literals of
    [createJobForInstallation], built for the Installation it loaded. *)
Lemma created_claim req inst tr res pvc opts reply :
  exec (Reconcile req) tr res → loads req inst tr →
  EvCreatePersistentVolumeClaim pvc opts reply ∈ tr →
  ∃ qty, pvc = scratchVolumeClaim (jobNameFor req inst) inst qty ∧ opts = [] ∧
         (∀ err, reply = Some err → res = (Result.zero, Some err)).
Proof.
  intros H Hl Hin. apply createClaim_elem_of_creations in Hin.
  apply Reconcile_creations in H as [Hnil | (inst' & Hl' & _ & Hpass & Hres)].
  { rewrite Hnil in Hin. apply elem_of_nil in Hin as []. }
  rewrite <- (loads_inj _ _ _ _ Hl Hl') in Hpass. clear Hl' inst'.
  destruct res as [result err0]. simpl in Hpass, Hres. subst result.
  inversion Hpass as [err1 Hcr Herr | qty err1 Hcr Herr
                     | qty v pp sa params reply1 Hperm Hcr Herr];
    subst err0; rewrite <- Hcr in Hin.
  - apply elem_of_nil in Hin as [].
  - apply list_elem_of_singleton in Hin. injection Hin as -> -> ->.
    exists qty. split; [reflexivity | split; [reflexivity |]].
    intros err [= ->]. reflexivity.
  - apply elem_of_cons in Hin as [Hin | Hin].
    + injection Hin as -> -> ->. exists qty.
      split; [reflexivity | split; [reflexivity | discriminate]].
    + apply list_elem_of_singleton in Hin. discriminate Hin.
Qed.

Lemma created_job req inst tr res job opts reply :
  exec (Reconcile req) tr res → loads req inst tr →
  EvCreateJob job opts reply ∈ tr →
  ∃ qty porterVersion pullPolicy serviceAccount params,
    params ≡ₚ map_to_list (InstallationSpec.Parameters (Installation.Spec inst)) ∧
    job = porterJobFor (jobNameFor req inst) inst
            (scratchVolumeClaim (jobNameFor req inst) inst qty)
            (porterImage porterVersion) pullPolicy serviceAccount
            (porterArgs IsCoreAction inst params) ∧
    opts = [CreateOptions.zero] ∧
    res = (Result.zero, Wrapf reply (jobErrorMessage inst)).
Proof.
  intros H Hl Hin. apply createJob_elem_of_creations in Hin.
  apply Reconcile_creations in H as [Hnil | (inst' & Hl' & _ & Hpass & Hres)].
  { rewrite Hnil in Hin. apply elem_of_nil in Hin as []. }
  rewrite <- (loads_inj _ _ _ _ Hl Hl') in Hpass. clear Hl' inst'.
  destruct res as [result err0]. simpl in Hpass, Hres. subst result.
  inversion Hpass as [err1 Hcr Herr | qty err1 Hcr Herr
                     | qty v pp sa params reply1 Hperm Hcr Herr];
    subst err0; rewrite <- Hcr in Hin.
  - apply elem_of_nil in Hin as [].
  - apply list_elem_of_singleton in Hin. discriminate Hin.
  - apply elem_of_cons in Hin as [Hin | Hin]; [discriminate Hin |].
    apply list_elem_of_singleton in Hin. injection Hin as -> -> ->.
    exists qty, v, pp, sa, params. auto.
Qed.

(** C3, as the code has it — a creation conflict is returned, not
    absorbed.  If creating the scratch volume claim fails, for whatever
    reason, the pass returns that error unchanged; if creating the job
    fails, the pass returns that error wrapped with the Installation's
    namespace, name and revision.  Either way the pass returns an error with
    the reason of the creation failure: an already-exists failure is
    reported to the caller as an already-exists error.  And a pass whose
    volume claim creation failed attempts no job creation. *)
Theorem creation_conflict_is_returned req tr res :
  exec (Reconcile req) tr res →
  (∀ pvc opts err,
     EvCreatePersistentVolumeClaim pvc opts (Some err) ∈ tr →
     res = (Result.zero, Some err)) ∧
  (∀ job opts err,
     EvCreateJob job opts (Some err) ∈ tr →
     ∃ inst, loads req inst tr ∧
             res = (Result.zero, Some (withMessage err (jobErrorMessage inst)))) ∧
  (∀ err,
     creationRefused err tr →
     ∃ err', res.2 = Some err' ∧
             ReasonForError err' = ReasonForError err ∧
             IsAlreadyExists err' = IsAlreadyExists err) ∧
  (∀ pvc opts err,
     EvCreatePersistentVolumeClaim pvc opts (Some err) ∈ tr →
     ∀ job opts' reply, EvCreateJob job opts' reply ∉ tr).
Proof.
  intros H.
  assert (Hloaded : ∀ e, e ∈ tr → is_create e = true → ∃ inst, loads req inst tr).
  { intros e Hin He.
    destruct (Reconcile_creations _ _ _ H) as [Hnil | (inst & Hl & _)].
    - assert (Hc : e ∈ creations tr) by (apply elem_of_creations; auto).
      rewrite Hnil in Hc. apply elem_of_nil in Hc as [].
    - eauto. }
  assert (Hclaim : ∀ pvc opts err,
             EvCreatePersistentVolumeClaim pvc opts (Some err) ∈ tr →
             res = (Result.zero, Some err)).
  { intros pvc opts err Hin.
    destruct (Hloaded _ Hin eq_refl) as [inst Hl].
    destruct (created_claim _ _ _ _ _ _ _ H Hl Hin) as (qty & _ & _ & Hres).
    apply Hres. reflexivity. }
  assert (Hjob : ∀ job opts err,
             EvCreateJob job opts (Some err) ∈ tr →
             ∃ inst, loads req inst tr ∧
                     res = (Result.zero, Some (withMessage err (jobErrorMessage inst)))).
  { intros job opts err Hin.
    destruct (Hloaded _ Hin eq_refl) as [inst Hl].
    destruct (created_job _ _ _ _ _ _ _ H Hl Hin)
      as (qty & v & pp & sa & params & _ & _ & _ & Hres).
    exists inst. auto. }
  split; [exact Hclaim | split; [exact Hjob | split]].
  - intros err (e & Hin & He).
    destruct e as [| | | pvc opts reply | job opts reply | | | |]; try discriminate He;
      simpl in He; subst reply.
    + rewrite (Hclaim _ _ _ Hin). exists err. auto.
    + destruct (Hjob _ _ _ Hin) as (inst & _ & ->).
      exists (withMessage err (jobErrorMessage inst)). auto.
  - intros pvc opts err Hin job opts' reply Hjobin.
    apply createClaim_elem_of_creations in Hin.
    apply createJob_elem_of_creations in Hjobin.
    destruct (Reconcile_creations _ _ _ H) as [Hnil | (inst & _ & _ & Hpass & _)].
    { rewrite Hnil in Hin. apply elem_of_nil in Hin as []. }
    inversion Hpass as [err1 Hcr Herr | qty err1 Hcr Herr
                       | qty v pp sa params reply1 Hperm Hcr Herr];
      rewrite <- Hcr in Hin, Hjobin.
    + apply elem_of_nil in Hin as [].
    + apply list_elem_of_singleton in Hjobin. discriminate Hjobin.
    + apply elem_of_cons in Hin as [Hin | Hin]; [discriminate Hin |].
      apply list_elem_of_singleton in Hin. discriminate Hin.
Qed.

Lemma resolved_app inst override tr0 rest key dflt :
  consulted inst override tr0 →
  resolved override (configReply (tr0 ++ rest)) key dflt
  = resolved override (configReply tr0) key dflt.
Proof.
  unfold consulted, resolved. destruct (decide (override ≠ "")); [reflexivity |].
  intros [reply Hl]. unfold configReply. rewrite configLookups_app, Hl. reflexivity.
Qed.

Lemma createJobTrace_malformed_size jobName inst tr res err :
  createJobTrace ParseQuantity IsCoreAction Quote jobName inst tr res →
  ParseQuantity (resolvedVolumeSize inst tr) = inr err →
  res = Some (withMessage err
                ("invalid outputsVolumeSize " +:+ resolvedVolumeSize inst tr)) ∧
  creations tr = [].
Proof.
  unfold resolvedVolumeSize.
  destruct 1 as [tr0 err0 H0 | tr0 qty err0 H0
                | tr0 qty tr1 v pp tr2 sa params reply H0 H1 H2 Hperm];
    intros Hparse;
    pose proof (getOutputsVolumeSize_exec _ _ _ _ _ H0) as (Hro & Hcons & Hres);
    unfold creatingLog in *.
  - change (configReply (EvLogInfo ?m ?k :: tr0)) with (configReply tr0) in *.
    unfold parsedSize in Hres. rewrite Hparse in Hres. injection Hres as ->.
    split; [reflexivity |]. rewrite creations_log. apply readOnly_creations, Hro.
  - exfalso. revert Hparse.
    match goal with
    | |- context [configReply (_ :: tr0 ++ ?rest)] =>
        change (configReply (_ :: tr0 ++ rest)) with (configReply (tr0 ++ rest))
    end.
    rewrite (resolved_app _ _ _ _ _ _ Hcons). intros Hparse.
    unfold parsedSize in Hres. rewrite Hparse in Hres. discriminate Hres.
  - exfalso. revert Hparse.
    match goal with
    | |- context [configReply (_ :: tr0 ++ ?rest)] =>
        change (configReply (_ :: tr0 ++ rest)) with (configReply (tr0 ++ rest))
    end.
    rewrite (resolved_app _ _ _ _ _ _ Hcons). intros Hparse.
    unfold parsedSize in Hres. rewrite Hparse in Hres. discriminate Hres.
Qed.

(** C6 — Malformed volume-size rejection.  In a pass that loaded the
    Installation and reached the creation path, if the resolved volume-size
    string does not parse as a quantity, the pass returns the parse error
    (wrapped with the offending string) and creates neither the scratch
    volume claim nor the job; the same holds of [createJobForInstallation]
    on its own. *)
Theorem malformed_volume_size_rejected req inst tr res err :
  exec (Reconcile req) tr res → loads req inst tr → reachesCreation tr →
  ParseQuantity (resolvedVolumeSize inst tr) = inr err →
  res = (Result.zero,
         Some (withMessage err
                 ("invalid outputsVolumeSize " +:+ resolvedVolumeSize inst tr))) ∧
  creations tr = [] ∧
  (∀ jobName tr' res',
     exec (createJobForInstallation jobName inst) tr' res' →
     ParseQuantity (resolvedVolumeSize inst tr') = inr err →
     res' = Some (withMessage err
                    ("invalid outputsVolumeSize " +:+ resolvedVolumeSize inst tr')) ∧
     creations tr' = []).
Proof.
  intros H Hl (key & e & Hk & He) Hparse.
  assert (Hcreate : ∀ jobName tr' res',
             exec (createJobForInstallation jobName inst) tr' res' →
             ParseQuantity (resolvedVolumeSize inst tr') = inr err →
             res' = Some (withMessage err
                            ("invalid outputsVolumeSize "
                               +:+ resolvedVolumeSize inst tr')) ∧
             creations tr' = []).
  { intros jobName tr' res' Hex Hp.
    apply createJobForInstallation_exec in Hex.
    exact (createJobTrace_malformed_size _ _ _ _ _ Hex Hp). }
  apply Reconcile_exec in H.
  destruct H as [err0 | inst' porterJob | inst' err0 Hnf | inst' err0 tr' res' Hnf Hc];
    simpl in Hk; try discriminate Hl; try discriminate Hk;
    injection Hl as <-; injection Hk as <- <-; [congruence |].
  change (resolvedVolumeSize inst' (_ :: _ :: tr')) with (resolvedVolumeSize inst' tr')
    in *.
  destruct (createJobTrace_malformed_size _ _ _ _ _ Hc Hparse) as [-> Hnil].
  split; [reflexivity | split; [exact Hnil | exact Hcreate]].
Qed.

Lemma jobQueries_app tr1 tr2 : jobQueries (tr1 ++ tr2) = jobQueries tr1 ++ jobQueries tr2.
Proof. apply omap_app. Qed.

Lemma jobQueries_skip e tr : jobQuery e = None → jobQueries (e :: tr) = jobQueries tr.
Proof. unfold jobQueries. simpl. intros ->. reflexivity. Qed.

Lemma readOnly_jobQueries tr : readOnly tr → jobQueries tr = [].
Proof.
  induction 1 as [| e tr He _ IH]; [reflexivity |].
  rewrite jobQueries_skip; [exact IH |]. destruct e; try discriminate He; reflexivity.
Qed.

Lemma createJobTrace_jobQueries jobName inst tr res :
  createJobTrace ParseQuantity IsCoreAction Quote jobName inst tr res →
  jobQueries tr = [].
Proof.
  destruct 1 as [tr0 err0 H0 | tr0 qty err0 H0
                | tr0 qty tr1 v pp tr2 sa params reply H0 H1 H2 Hperm];
    apply getOutputsVolumeSize_exec in H0 as (Hro0 & _);
    unfold creatingLog; rewrite jobQueries_skip by reflexivity.
  - apply readOnly_jobQueries, Hro0.
  - rewrite jobQueries_app, (readOnly_jobQueries _ Hro0). reflexivity.
  - apply getPorterImageVersion_exec in H1 as (Hro1 & _).
    apply getPorterAgentServiceAccount_exec in H2 as (Hro2 & _).
    rewrite jobQueries_app, (readOnly_jobQueries _ Hro0), app_nil_l.
    rewrite jobQueries_skip by reflexivity.
    rewrite jobQueries_app, (readOnly_jobQueries _ Hro1), app_nil_l.
    rewrite jobQueries_skip by reflexivity.
    rewrite jobQueries_app, (readOnly_jobQueries _ Hro2). reflexivity.
Qed.

(** With a volume size that parses, [createJobForInstallation] does create:
    the first creation of the pass is the volume claim of the job's name,
    requesting the parsed size; refused, it ends the pass; accepted, it is
    followed by the submission of the job. *)
Lemma createJobTrace_parsed_size jobName inst tr res qty :
  createJobTrace ParseQuantity IsCoreAction Quote jobName inst tr res →
  ParseQuantity (resolvedVolumeSize inst tr) = inl qty →
  ∃ reply rest,
    creations tr
    = EvCreatePersistentVolumeClaim (scratchVolumeClaim jobName inst qty) [] reply
        :: rest ∧
    match reply with
    | Some err => rest = [] ∧ res = Some err
    | None =>
        ∃ porterVersion pullPolicy serviceAccount params reply',
          rest = [EvCreateJob
                    (porterJobFor jobName inst (scratchVolumeClaim jobName inst qty)
                       (porterImage porterVersion) pullPolicy serviceAccount
                       (porterArgs IsCoreAction inst params))
                    [CreateOptions.zero] reply'] ∧
          res = Wrapf reply' (jobErrorMessage inst)
    end.
Proof.
  unfold resolvedVolumeSize.
  destruct 1 as [tr0 err0 H0 | tr0 qty0 err0 H0
                | tr0 qty0 tr1 v pp tr2 sa params reply H0 H1 H2 Hperm];
    intros Hparse;
    pose proof (getOutputsVolumeSize_exec _ _ _ _ _ H0) as (Hro0 & Hcons & Hres);
    unfold creatingLog in *.
  - exfalso.
    change (configReply (EvLogInfo ?m ?k :: tr0)) with (configReply tr0) in *.
    unfold parsedSize in Hres. rewrite Hparse in Hres. discriminate Hres.
  - revert Hparse.
    match goal with
    | |- context [configReply (_ :: tr0 ++ ?rest)] =>
        change (configReply (_ :: tr0 ++ rest)) with (configReply (tr0 ++ rest))
    end.
    rewrite (resolved_app _ _ _ _ _ _ Hcons). intros Hparse.
    unfold parsedSize in Hres. rewrite Hparse in Hres. injection Hres as ->.
    exists (Some err0), []. split; [| auto].
    rewrite creations_log, creations_app, (readOnly_creations _ Hro0). reflexivity.
  - revert Hparse.
    match goal with
    | |- context [configReply (_ :: tr0 ++ ?rest)] =>
        change (configReply (_ :: tr0 ++ rest)) with (configReply (tr0 ++ rest))
    end.
    rewrite (resolved_app _ _ _ _ _ _ Hcons). intros Hparse.
    unfold parsedSize in Hres. rewrite Hparse in Hres. injection Hres as ->.
    apply getPorterImageVersion_exec in H1 as (Hro1 & _).
    apply getPorterAgentServiceAccount_exec in H2 as (Hro2 & _).
    exists None. eexists. split.
    { rewrite creations_log, creations_app, (readOnly_creations _ Hro0), app_nil_l.
      change (creations (EvCreatePersistentVolumeClaim ?c ?o ?r :: ?l))
        with (EvCreatePersistentVolumeClaim c o r :: creations l).
      rewrite creations_app, (readOnly_creations _ Hro1), app_nil_l, creations_log.
      rewrite creations_app, (readOnly_creations _ Hro2). reflexivity. }
    exists v, pp, sa, params, reply. split; reflexivity.
Qed.

(** C2 — Deterministic resource identity.  In a pass that loaded the
    Installation it was asked for, the only job queried is the one named
    installation name, "-", revision token, in the Installation's
    namespace; every volume claim and every job the pass creates carries
    exactly that name and namespace, the job mounting the claim of that
    name; a pass that reaches the creation path with a volume size that
    parses does attempt, as its first creation, a volume claim of exactly
    that name and namespace, and, that claim accepted, submits next a job
    of exactly that name and namespace; and a pass that reaches the
    creation path and succeeds has created one such claim and then one such
    job. *)
Theorem deterministic_resource_identity req inst tr res :
  exec (Reconcile req) tr res → loads req inst tr →
  Installation.Name inst = Request.Name req →
  Installation.Namespace inst = Request.Namespace req →
  let identity := Installation.Name inst +:+ "-" +:+ Installation.ResourceVersion inst in
  jobQueries tr = [ {| NamespacedName.Namespace := Installation.Namespace inst;
                       NamespacedName.Name := identity |} ] ∧
  (∀ pvc opts reply,
     EvCreatePersistentVolumeClaim pvc opts reply ∈ tr →
     PersistentVolumeClaim.Name pvc = identity ∧
     PersistentVolumeClaim.Namespace pvc = Installation.Namespace inst) ∧
  (∀ job opts reply,
     EvCreateJob job opts reply ∈ tr →
     Job.Name job = identity ∧
     Job.Namespace job = Installation.Namespace inst ∧
     VolumeSource.PersistentVolumeClaim ∘ Volume.VolumeSource
       <$> head (PodSpec.Volumes (PodTemplateSpec.Spec (JobSpec.Template (Job.Spec job))))
     = Some (Some {| PersistentVolumeClaimVolumeSource.ClaimName := identity |})) ∧
  (reachesCreation tr →
   ∀ qty, ParseQuantity (resolvedVolumeSize inst tr) = inl qty →
   ∃ pvc reply rest,
     creations tr = EvCreatePersistentVolumeClaim pvc [] reply :: rest ∧
     PersistentVolumeClaim.Name pvc = identity ∧
     PersistentVolumeClaim.Namespace pvc = Installation.Namespace inst ∧
     match reply with
     | Some err => rest = [] ∧ res.2 = Some err
     | None =>
         ∃ job reply',
           rest = [EvCreateJob job [CreateOptions.zero] reply'] ∧
           Job.Name job = identity ∧
           Job.Namespace job = Installation.Namespace inst ∧
           res.2 = Wrapf reply' (jobErrorMessage inst)
     end) ∧
  (reachesCreation tr → res.2 = None →
   ∃ pvc job,
     creations tr = [EvCreatePersistentVolumeClaim pvc [] None;
                     EvCreateJob job [CreateOptions.zero] None]).
Proof.
  intros H Hl Hname Hns identity.
  assert (Hid : jobNameFor req inst = identity).
  { unfold jobNameFor, identity. rewrite Hname. reflexivity. }
  split; [| split; [| split; [| split]]].
  - pose proof (Reconcile_exec _ _ _ _ _ _ H) as Htr.
    destruct Htr as [err0 | inst' porterJob | inst' err0 Hnf
                    | inst' err0 tr' res' Hnf Hc];
      try discriminate Hl; injection Hl as <-;
      unfold jobQueries; simpl; unfold jobKeyFor;
      rewrite Hid, <- Hns; try reflexivity.
    f_equal. exact (createJobTrace_jobQueries _ _ _ _ Hc).
  - intros pvc opts reply Hin.
    destruct (created_claim _ _ _ _ _ _ _ H Hl Hin) as (qty & -> & _).
    rewrite Hid. split; reflexivity.
  - intros job opts reply Hin.
    destruct (created_job _ _ _ _ _ _ _ H Hl Hin)
      as (qty & v & pp & sa & params & _ & -> & _).
    rewrite Hid. split; [reflexivity | split; reflexivity].
  - intros (key & e & Hk & He) qty Hparse.
    pose proof (Reconcile_exec _ _ _ _ _ _ H) as Htr.
    destruct Htr as [err0 | inst' porterJob | inst' err0 Hnf
                    | inst' err0 tr' res' Hnf Hc];
      simpl in Hk; try discriminate Hl; try discriminate Hk;
      injection Hl as <-; injection Hk as <- <-; [congruence |].
    change (resolvedVolumeSize inst' (_ :: _ :: tr')) with (resolvedVolumeSize inst' tr')
      in Hparse.
    destruct (createJobTrace_parsed_size _ _ _ _ _ Hc Hparse) as (reply & rest & Hcr & Hrest).
    exists (scratchVolumeClaim (jobNameFor req inst') inst' qty), reply, rest.
    split; [exact Hcr |]. rewrite <- Hid.
    split; [reflexivity | split; [reflexivity |]].
    destruct reply as [err |].
    + exact Hrest.
    + destruct Hrest as (v & pp & sa & params & reply' & -> & ->).
      eexists _, reply'. split; [reflexivity |].
      split; [reflexivity | split; reflexivity].
  - intros Hreach Hnone.
    destruct (reconcileTrace_loads _ _ _ _ _ _ _ (Reconcile_exec _ _ _ _ _ _ H)
                Hl Hreach) as [Hpass _].
    rewrite Hnone in Hpass.
    inversion Hpass as [| | qty v pp sa params reply Hperm Hcr Hres].
    destruct reply; [discriminate Hres |]. eauto.
Qed.

Lemma porterArgs_eq inst params :
  let spec := Installation.Spec inst in
  porterArgs IsCoreAction inst params
  = (if IsCoreAction (InstallationSpec.Action spec)
     then [InstallationSpec.Action spec]
     else ["invoke"; "--action=" +:+ InstallationSpec.Action spec])
    ++ [Installation.Name inst;
        "--reference=" +:+ InstallationSpec.Reference spec;
        "--debug"; "--debug-plugins"; "--driver=kubernetes"]
    ++ ((λ c, "-c=" +:+ c) <$> InstallationSpec.CredentialSets spec)
    ++ ((λ p, "-p=" +:+ p) <$> InstallationSpec.ParameterSets spec)
    ++ ((λ kv, "--param=" +:+ kv.1 +:+ "=" +:+ kv.2) <$> params).
Proof.
  unfold porterArgs. cbv zeta.
  rewrite (foldl_snoc_map (λ kv : string * string, "--param=" +:+ kv.1 +:+ "=" +:+ kv.2)).
  rewrite (foldl_snoc_map (λ p, "-p=" +:+ p)), (foldl_snoc_map (λ c, "-c=" +:+ c)).
  rewrite <- !app_assoc. reflexivity.
Qed.

(** C5 — Executor command-line construction.  The one container of every
    job the pass creates is started with: the action itself when it is a
    core verb, else "invoke" and "--action=<action>"; then the installation
    name, "--reference=<bundle reference>", "--debug", "--debug-plugins",
    "--driver=kubernetes"; then one "-c=" flag per credential set in list
    order, one "-p=" flag per parameter set in list order, and one
    "--param=<key>=<value>" flag per entry of the parameter map, in the
    order the iteration visited them. *)
Theorem executor_command_line req inst tr res job opts reply :
  exec (Reconcile req) tr res → loads req inst tr →
  EvCreateJob job opts reply ∈ tr →
  let spec := Installation.Spec inst in
  ∃ params,
    params ≡ₚ map_to_list (InstallationSpec.Parameters spec) ∧
    Container.Args
      <$> PodSpec.Containers (PodTemplateSpec.Spec (JobSpec.Template (Job.Spec job)))
    = [ (if IsCoreAction (InstallationSpec.Action spec)
         then [InstallationSpec.Action spec]
         else ["invoke"; "--action=" +:+ InstallationSpec.Action spec])
        ++ [Installation.Name inst;
            "--reference=" +:+ InstallationSpec.Reference spec;
            "--debug"; "--debug-plugins"; "--driver=kubernetes"]
        ++ ((λ c, "-c=" +:+ c) <$> InstallationSpec.CredentialSets spec)
        ++ ((λ p, "-p=" +:+ p) <$> InstallationSpec.ParameterSets spec)
        ++ ((λ kv, "--param=" +:+ kv.1 +:+ "=" +:+ kv.2) <$> params) ].
Proof.
  intros H Hl Hin spec.
  destruct (created_job _ _ _ _ _ _ _ H Hl Hin)
    as (qty & v & pp & sa & params & Hperm & -> & _).
  exists params. split; [exact Hperm |].
  simpl. rewrite porterArgs_eq. reflexivity.
Qed.

(** C9, as the code has it — execution-job construction.  Every job the
    pass creates requires exactly one completion, has a backoff limit of
    zero and a pod restart policy of "Never"; the owner reference back to
    the Installation is carried by the job's pod template, and the job's
    own metadata carries no owner reference. *)
Theorem execution_job_construction req inst tr res job opts reply :
  exec (Reconcile req) tr res → loads req inst tr →
  EvCreateJob job opts reply ∈ tr →
  let template := JobSpec.Template (Job.Spec job) in
  JobSpec.Completions (Job.Spec job) = Some 1 ∧
  JobSpec.BackoffLimit (Job.Spec job) = Some 0 ∧
  PodSpec.RestartPolicy (PodTemplateSpec.Spec template) = "Never" ∧
  ObjectMeta.OwnerReferences (PodTemplateSpec.ObjectMeta template)
  = [ownerReferenceTo inst] ∧
  ObjectMeta.OwnerReferences (Job.ObjectMeta job) = [].
Proof.
  intros H Hl Hin.
  destruct (created_job _ _ _ _ _ _ _ H Hl Hin)
    as (qty & v & pp & sa & params & _ & -> & _).
  repeat split; reflexivity.
Qed.



Lemma updates_skip e tr : is_update e = false → updates (e :: tr) = updates tr.
Proof. unfold updates. simpl. intros ->. reflexivity. Qed.

Lemma createJobTrace_updates jobName inst tr res :
  createJobTrace ParseQuantity IsCoreAction Quote jobName inst tr res →
  updates tr = [].
Proof.
  destruct 1 as [tr0 err0 H0 | tr0 qty err0 H0
                | tr0 qty tr1 v pp tr2 sa params reply H0 H1 H2 Hperm];
    apply getOutputsVolumeSize_exec in H0 as (Hro0 & _);
    unfold creatingLog; rewrite updates_skip by reflexivity.
  - apply readOnly_updates, Hro0.
  - rewrite updates_app, (readOnly_updates _ Hro0). reflexivity.
  - apply getPorterImageVersion_exec in H1 as (Hro1 & _).
    apply getPorterAgentServiceAccount_exec in H2 as (Hro2 & _).
    rewrite updates_app, (readOnly_updates _ Hro0), app_nil_l.
    rewrite updates_skip by reflexivity.
    rewrite updates_app, (readOnly_updates _ Hro1), app_nil_l.
    rewrite updates_skip by reflexivity.
    rewrite updates_app, (readOnly_updates _ Hro2). reflexivity.
Qed.

Lemma Reconcile_updates req tr res : exec (Reconcile req) tr res → updates tr = [].
Proof.
  intros H. apply Reconcile_exec in H.
  destruct H as [err0 | inst porterJob | inst err0 Hnf | inst err0 tr' res' Hnf Hc];
    try reflexivity.
  rewrite !updates_skip by reflexivity. exact (createJobTrace_updates _ _ _ _ Hc).
Qed.

Lemma createJobForInstallation_status jobName st inst :
  createJobForInstallation jobName (Installation.setStatus st inst)
  = createJobForInstallation jobName inst.
Proof. destruct inst. reflexivity. Qed.

Lemma Reconcile_status_blind req st tr res :
  exec (Reconcile req) tr res → exec (Reconcile req) (withLoadedStatus st tr) res.
Proof.
  unfold Reconcile, mbind, Prog_mbind, call.
  cbn [exec Prog_bind observe].
  intros (r & tr' & -> & H). destruct r as [inst | err]; cbn [withLoadedStatus].
  - exists (inl (Installation.setStatus st inst)), tr'. split; [reflexivity |].
    change (Installation.ResourceVersion (Installation.setStatus st inst))
      with (Installation.ResourceVersion inst).
    destruct H as (r & tr'' & -> & H). exists r, tr''. split; [reflexivity |].
    destruct r as [porterJob | err]; [exact H |].
    destruct (IsNotFound err); [| exact H].
    fold (createJobForInstallation
            (Request.Name req +:+ "-" +:+ Installation.ResourceVersion inst)
            (Installation.setStatus st inst)).
    rewrite createJobForInstallation_status. exact H.
  - exists (inr err), tr'. split; [reflexivity | exact H].
Qed.

(** *** The reference cluster under a pass *)

Lemma get_state {A} (store : gmap (string * string) A) k c :
  (Cluster.get store k c).2 = c.
Proof.
  unfold Cluster.get. destruct (Cluster.outage c); [reflexivity |].
  destruct (store !! Cluster.key k); reflexivity.
Qed.

Lemma get_found {A} (store : gmap (string * string) A) k c obj :
  Cluster.outage c = None → store !! Cluster.key k = Some obj →
  Cluster.get store k c = (inl obj, c).
Proof. unfold Cluster.get. intros -> ->. reflexivity. Qed.

Lemma get_inl {A} (store : gmap (string * string) A) k c obj :
  (Cluster.get store k c).1 = inl obj →
  Cluster.outage c = None ∧ store !! Cluster.key k = Some obj.
Proof.
  unfold Cluster.get. destruct (Cluster.outage c); [discriminate |].
  destruct (store !! Cluster.key k); [| discriminate].
  intros [= ->]. auto.
Qed.

Lemma preserved_refl c : preserved c c.
Proof. repeat split; auto. Qed.

Lemma preserved_trans c1 c2 c3 : preserved c1 c2 → preserved c2 c3 → preserved c1 c3.
Proof.
  intros (Hi & Ho & Hj) (Hi' & Ho' & Hj'). repeat split; try congruence. auto.
Qed.

Lemma apiserver_preserved T (c : Call T) s r s' :
  Cluster.apiserver T c s = (r, s') → is_update (observe c r) = false →
  preserved s s'.
Proof.
  destruct c; simpl.
  - intros H _. pose proof (get_state (Cluster.installations s) key s) as Hs.
    rewrite H in Hs. simpl in Hs. subst s'. apply preserved_refl.
  - intros H _. pose proof (get_state (Cluster.jobs s) key s) as Hs.
    rewrite H in Hs. simpl in Hs. subst s'. apply preserved_refl.
  - intros H _. pose proof (get_state (Cluster.configmaps s) key s) as Hs.
    rewrite H in Hs. simpl in Hs. subst s'. apply preserved_refl.
  - unfold Cluster.createPersistentVolumeClaim.
    destruct (Cluster.outage s) eqn:Ho; [intros [= <- <-] _; apply preserved_refl |].
    destruct (Cluster.persistentvolumeclaims s !! _);
      intros [= <- <-] _; [apply preserved_refl |].
    repeat split; auto.
  - unfold Cluster.createJob.
    destruct (Cluster.outage s) eqn:Ho; [intros [= <- <-] _; apply preserved_refl |].
    destruct (Cluster.jobs s !! _) eqn:Hj;
      intros [= <- <-] _; [apply preserved_refl |].
    repeat split; auto. simpl. intros k [j Hk].
    destruct (decide (Cluster.metaKey (Job.ObjectMeta obj) = k)) as [<- | Hne].
    + rewrite lookup_insert_eq. eauto.
    + rewrite lookup_insert_ne by exact Hne. eauto.
  - intros _ [=].
  - intros _ [=].
  - intros [= <- <-] _. apply preserved_refl.
  - intros [= <- <-] _. apply preserved_refl.
Qed.

Lemma run_preserved {A} (p : Prog A) s a s' tr :
  run Cluster.apiserver p s = (a, s', tr) → updates tr = [] → preserved s s'.
Proof.
  revert s tr. induction p as [x | T c k IH]; intros s tr; simpl.
  - intros [= <- <- <-] _. apply preserved_refl.
  - destruct (Cluster.apiserver T c s) as [r s1] eqn:Hc.
    destruct (run Cluster.apiserver (k r) s1) as [[a' s2] tr'] eqn:Hr.
    intros [= <- <- <-] Hup. unfold updates in Hup. simpl in Hup.
    destruct (is_update (observe c r)) eqn:Hu; [discriminate Hup |].
    eapply preserved_trans; [exact (apiserver_preserved _ _ _ _ _ Hc Hu) |].
    exact (IH _ _ _ Hr Hup).
Qed.

(** A job whose creation succeeded is in the cluster at the end of the pass. *)
Lemma run_created_job {A} (p : Prog A) s a s' tr job opts :
  run Cluster.apiserver p s = (a, s', tr) → updates tr = [] →
  EvCreateJob job opts None ∈ tr →
  is_Some (Cluster.jobs s' !! Cluster.metaKey (Job.ObjectMeta job)).
Proof.
  revert s tr. induction p as [x | T c k IH]; intros s tr; simpl.
  - intros [= <- <- <-] _ Hin. apply elem_of_nil in Hin as [].
  - destruct (Cluster.apiserver T c s) as [r s1] eqn:Hc.
    destruct (run Cluster.apiserver (k r) s1) as [[a' s2] tr'] eqn:Hr.
    intros [= <- <- <-] Hup Hin. unfold updates in Hup. simpl in Hup.
    destruct (is_update (observe c r)) eqn:Hu; [discriminate Hup |].
    apply elem_of_cons in Hin as [Hhead | Htail]; [| exact (IH _ _ _ Hr Hup Htail)].
    destruct (run_preserved _ _ _ _ _ Hr Hup) as (_ & _ & Hjobs). apply Hjobs.
    clear -Hhead Hc. destruct c; simpl in Hhead; try discriminate Hhead.
    injection Hhead as <- <- <-. simpl in Hc. unfold Cluster.createJob in Hc.
    destruct (Cluster.outage s); [discriminate Hc |].
    destruct (Cluster.jobs s !! _); [discriminate Hc |].
    injection Hc as <-. simpl. rewrite lookup_insert_eq. eauto.
Qed.

Lemma run_Reconcile_not_loaded req c err :
  (Cluster.get (Cluster.installations c) (Request.NamespacedName req) c).1 = inr err →
  run Cluster.apiserver (Reconcile req) c
  = (({| Result.Requeue := false; Result.RequeueAfter := 0 |}, None), c,
     [EvGetInstallation (Request.NamespacedName req) (inr err); deletedLog req]).
Proof.
  intros Hget. unfold Reconcile, mbind, Prog_mbind, call.
  cbn [run Prog_bind observe Cluster.apiserver].
  pose proof (get_state (Cluster.installations c) (Request.NamespacedName req) c) as Hs.
  destruct (Cluster.get _ _ c) as [r s]. simpl in Hget, Hs. subst r s. reflexivity.
Qed.

Lemma run_Reconcile_found req c inst job :
  Cluster.outage c = None →
  Cluster.installations c !! Cluster.key (Request.NamespacedName req) = Some inst →
  Cluster.jobs c !! Cluster.key (jobKeyFor req inst) = Some job →
  run Cluster.apiserver (Reconcile req) c
  = ((Result.zero, None), c,
     [EvGetInstallation (Request.NamespacedName req) (inl inst);
      EvGetJob (jobKeyFor req inst) (inl job)]).
Proof.
  intros Ho Hi Hj. unfold Reconcile, mbind, Prog_mbind, call.
  cbn [run Prog_bind observe Cluster.apiserver].
  rewrite (get_found _ _ _ _ Ho Hi).
  cbn [run Prog_bind observe Cluster.apiserver].
  fold (jobNameFor req inst). fold (jobKeyFor req inst).
  rewrite (get_found _ _ _ _ Ho Hj). reflexivity.
Qed.

(** The first reply of a pass is what the cluster holds under the
    request's key. *)
Lemma run_Reconcile_head req c a c' tr :
  run Cluster.apiserver (Reconcile req) c = (a, c', tr) →
  head tr = Some (EvGetInstallation (Request.NamespacedName req)
                    (Cluster.get (Cluster.installations c)
                       (Request.NamespacedName req) c).1).
Proof.
  unfold Reconcile, mbind, Prog_mbind, call.
  cbn [run Prog_bind observe Cluster.apiserver].
  destruct (Cluster.get _ _ c) as [r s].
  destruct (run _ _ s) as [[a' s2] tr']. intros [= <- <- <-]. reflexivity.
Qed.

Lemma run_Reconcile_second req c a c' tr inst :
  run Cluster.apiserver (Reconcile req) c = (a, c', tr) →
  head tr = Some (EvGetInstallation (Request.NamespacedName req) (inl inst)) →
  ∃ reply, tr !! 1%nat = Some (EvGetJob (jobKeyFor req inst) reply) ∧
           reply = (Cluster.get (Cluster.jobs c) (jobKeyFor req inst) c).1.
Proof.
  unfold Reconcile, mbind, Prog_mbind, call.
  cbn [run Prog_bind observe Cluster.apiserver].
  pose proof (get_state (Cluster.installations c) (Request.NamespacedName req) c) as Hs.
  destruct (Cluster.get _ _ c) as [r s]. simpl in Hs. subst s.
  destruct r as [inst' | err].
  - cbn [run Prog_bind observe Cluster.apiserver].
    fold (jobNameFor req inst'). fold (jobKeyFor req inst').
    destruct (Cluster.get (Cluster.jobs c) (jobKeyFor req inst') c) as [r s] eqn:Hg.
    destruct (run _ _ s) as [[a' s2] tr']. intros [= <- <- <-] [= ->].
    exists r. rewrite Hg. split; reflexivity.
  - destruct (run _ _ c) as [[a' s2] tr']. intros [= <- <- <-] [=].
Qed.

(** C10, as the code has it — the status is neither written nor read.  A
    pass issues no [Update] and no [Status().Update]: the active-job and
    last-job references, like every other field of the Installation, are
    left as they were (on the reference cluster the stored Installations
    are the same after the pass); and the pass is blind to the status: had
    the loaded Installation carried any other status, the same calls would
    have led to the same result. *)
Theorem status_neither_written_nor_read req tr res :
  exec (Reconcile req) tr res →
  updates tr = [] ∧
  (∀ st, exec (Reconcile req) (withLoadedStatus st tr) res) ∧
  (∀ c c', run Cluster.apiserver (Reconcile req) c = (res, c', tr) →
           Cluster.installations c' = Cluster.installations c).
Proof.
  intros H. pose proof (Reconcile_updates _ _ _ H) as Hup.
  split; [exact Hup | split].
  - intros st. apply Reconcile_status_blind, H.
  - intros c c' Hrun. exact (proj1 (run_preserved _ _ _ _ _ Hrun Hup)).
Qed.

Lemma second_pass_finds_job req c c1 inst :
  preserved c c1 →
  (Cluster.get (Cluster.installations c) (Request.NamespacedName req) c).1 = inl inst →
  is_Some (Cluster.jobs c1 !! Cluster.key (jobKeyFor req inst)) →
  ∃ tr2, run Cluster.apiserver (Reconcile req) c1 = ((Result.zero, None), c1, tr2) ∧
         creations tr2 = [].
Proof.
  intros (Hi & Ho & _) Hget [job Hjob]. apply get_inl in Hget as [Hout Hinst].
  rewrite <- Ho in Hout. rewrite <- Hi in Hinst.
  eexists. split; [exact (run_Reconcile_found _ _ _ _ Hout Hinst Hjob) | reflexivity].
Qed.

(** C1 — Idempotency at a fixed revision.  Whatever the client, a pass
    whose job query finds a job returns success and attempts no creation.
    On the reference cluster: if the job named installation name, "-",
    revision token is stored in the Installation's namespace, the pass
    returns success, creates nothing and leaves the cluster as it was; and
    after any pass that returned no error, a second pass for the same
    request returns success, creates nothing and leaves the cluster as the
    first pass left it. *)
Theorem idempotent_at_fixed_revision req :
  (∀ tr res key job,
     exec (Reconcile req) tr res →
     tr !! 1%nat = Some (EvGetJob key (inl job)) →
     res = (Result.zero, None) ∧ creations tr = []) ∧
  (∀ c inst job,
     Cluster.outage c = None →
     Cluster.installations c !! Cluster.key (Request.NamespacedName req) = Some inst →
     Installation.Name inst = Request.Name req →
     Installation.Namespace inst = Request.Namespace req →
     Cluster.jobs c !! (Installation.Namespace inst,
                        Installation.Name inst +:+ "-"
                          +:+ Installation.ResourceVersion inst) = Some job →
     ∃ tr, run Cluster.apiserver (Reconcile req) c = ((Result.zero, None), c, tr) ∧
           creations tr = []) ∧
  (∀ c res c1 tr1,
     keyedByIdentity c →
     run Cluster.apiserver (Reconcile req) c = ((res, None), c1, tr1) →
     ∃ tr2, run Cluster.apiserver (Reconcile req) c1 = ((Result.zero, None), c1, tr2) ∧
            creations tr2 = []).
Proof.
  split; [| split].
  - intros tr res key job H Hk. apply Reconcile_exec in H.
    destruct H as [err0 | inst porterJob | inst err0 Hnf | inst err0 tr' res' Hnf Hc];
      simpl in Hk; try discriminate Hk.
    split; reflexivity.
  - intros c inst job Ho Hi Hname Hns Hj.
    assert (Hj' : Cluster.jobs c !! Cluster.key (jobKeyFor req inst) = Some job).
    { unfold jobKeyFor, jobNameFor, Cluster.key. simpl.
      rewrite <- Hname, <- Hns. exact Hj. }
    eexists. split; [exact (run_Reconcile_found _ _ inst job Ho Hi Hj') |].
    reflexivity.
  - intros c res c1 tr1 Hkeyed Hrun.
    pose proof (run_exec _ _ _ _ _ _ Hrun) as Hex.
    pose proof (Reconcile_updates _ _ _ Hex) as Hup.
    pose proof (run_preserved _ _ _ _ _ Hrun Hup) as Hpres.
    pose proof (run_Reconcile_head _ _ _ _ _ Hrun) as Hhead.
    pose proof (Reconcile_exec _ _ _ _ _ _ Hex) as Htr.
    inversion Htr as [err0 Htr1 Hres | inst porterJob Htr1 Hres
                     | inst err0 Hnf Htr1 Hres | inst err0 tr' res' Hnf Hc Htr1 Hres];
      subst tr1; simpl in Hhead; injection Hhead as Hget; symmetry in Hget.
    + destruct Hpres as (Hi & Ho & _).
      assert (Hget1 : (Cluster.get (Cluster.installations c1)
                         (Request.NamespacedName req) c1).1 = inr err0).
      { revert Hget. unfold Cluster.get. rewrite Hi, Ho.
        destruct (Cluster.outage c); [auto |].
        destruct (Cluster.installations c !! _); auto. }
      eexists. split; [exact (run_Reconcile_not_loaded _ _ _ Hget1) | reflexivity].
    + destruct (run_Reconcile_second _ _ _ _ _ inst Hrun eq_refl) as (reply & Hsnd & ->).
      simpl in Hsnd. injection Hsnd as Hjob. symmetry in Hjob.
      apply get_inl in Hjob as [_ Hjob].
      apply (second_pass_finds_job _ c _ inst Hpres Hget).
      destruct Hpres as (_ & _ & Hjobs). apply Hjobs. eauto.
    + apply (second_pass_finds_job _ c _ inst Hpres Hget).
      apply createJobTrace_creations in Hc.
      inversion Hc as [| | qty v pp sa params reply Hperm Hcr Hreply].
      destruct reply; [discriminate Hreply |].
      assert (Hin : EvCreateJob
                      (porterJobFor (jobNameFor req inst) inst
                         (scratchVolumeClaim (jobNameFor req inst) inst qty)
                         (porterImage v) pp sa (porterArgs IsCoreAction inst params))
                      [CreateOptions.zero] None
                    ∈ EvGetInstallation (Request.NamespacedName req) (inl inst)
                        :: EvGetJob (jobKeyFor req inst) (inr err0) :: tr').
      { do 2 apply list_elem_of_further.
        assert (Hc' : EvCreateJob
                        (porterJobFor (jobNameFor req inst) inst
                           (scratchVolumeClaim (jobNameFor req inst) inst qty)
                           (porterImage v) pp sa (porterArgs IsCoreAction inst params))
                        [CreateOptions.zero] None ∈ creations tr').
        { rewrite <- Hcr. apply list_elem_of_further, list_elem_of_here. }
        apply elem_of_creations in Hc' as [Hc' _]. exact Hc'. }
      pose proof (run_created_job _ _ _ _ _ _ _ Hrun Hup Hin) as Hstored.
      apply get_inl in Hget as [_ Hinst]. apply Hkeyed in Hinst.
      unfold Cluster.metaKey, Cluster.key in Hinst. simpl in Hinst.
      injection Hinst as Hns Hname.
      unfold Cluster.metaKey in Hstored. simpl in Hstored.
      unfold Cluster.key, jobKeyFor. simpl. unfold Request.Namespace.
      rewrite <- Hns. exact Hstored.
Qed.

(** A failed job query ([Reconcile]).  When the Installation was loaded and
    the query for its job fails with an error that is not a not-found, the
    pass returns that error wrapped with "could not query for the bundle
    installation job <namespace>/" — the job name in the message is empty,
    the job object not having been filled — and attempts no creation. *)
Lemma job_query_failure_returned req tr res key err :
  exec (Reconcile req) tr res →
  tr !! 1%nat = Some (EvGetJob key (inr err)) → IsNotFound err = false →
  res = (Result.zero, Some (withMessage err (queryErrorMessage req))) ∧
  creations tr = [].
Proof.
  intros H Hk Hnf. apply Reconcile_exec in H.
  destruct H as [err0 | inst porterJob | inst err0 Hnf0 | inst err0 tr' res' Hnf0 Hc];
    simpl in Hk; try discriminate Hk; injection Hk as <- <-; [| congruence].
  split; reflexivity.
Qed.

(** A failed load of the Installation, whatever the error, ends the pass
    after one log line. *)
Lemma installation_load_failure_ignored req tr res err :
  exec (Reconcile req) tr res →
  head tr = Some (EvGetInstallation (Request.NamespacedName req) (inr err)) →
  res = ({| Result.Requeue := false; Result.RequeueAfter := 0 |}, None) ∧
  tr = [EvGetInstallation (Request.NamespacedName req) (inr err); deletedLog req].
Proof.
  intros H Hh. apply Reconcile_exec in H.
  destruct H as [err0 | inst porterJob | inst err0 Hnf0 | inst err0 tr' res' Hnf0 Hc];
    simpl in Hh; try discriminate Hh; injection Hh as <-.
  split; reflexivity.
Qed.

End Claims.

(** * The claims on concrete passes *)

Lemma run_exec_proj {St A} (h : Handler St) (p : Prog A) s :
  exec p (run h p s).2 (run h p s).1.1.
Proof.
  destruct (run h p s) as [[a s'] tr] eqn:Hrun. exact (run_exec h p s a s' tr Hrun).
Qed.

Lemma reconcileOn_exec c req :
  exec (ReconcileRef req) (reconcileOn c req).2 (reconcileOn c req).1.1.
Proof. apply run_exec_proj. Qed.

Lemma wordpress_loads : loads wordpressRequest wordpress wordpressTrace.
Proof. vm_compute. reflexivity. Qed.

Lemma wordpress_reachesCreation : reachesCreation wordpressTrace.
Proof.
  exists {| NamespacedName.Namespace := "default"; NamespacedName.Name := "wordpress-5" |},
    (Cluster.notFound ("default", "wordpress-5")).
  split; vm_compute; reflexivity.
Qed.

Lemma wordpress_creations :
  creations wordpressTrace
  = [EvCreatePersistentVolumeClaim wordpressClaim [] None;
     EvCreateJob wordpressJob [CreateOptions.zero] None].
Proof. vm_compute. reflexivity. Qed.

Lemma wordpress_job_created :
  EvCreateJob wordpressJob [CreateOptions.zero] None ∈ wordpressTrace.
Proof.
  apply (elem_of_creations _ wordpressTrace). rewrite wordpress_creations.
  apply list_elem_of_further, list_elem_of_here.
Qed.

Lemma wordpress_keyed : keyedByIdentity wordpressCluster.
Proof.
  intros k inst H. unfold wordpressCluster in H. simpl in H.
  apply lookup_singleton_Some in H as [<- <-]. reflexivity.
Qed.

Lemma wordpress_run :
  run Cluster.apiserver (ReconcileRef wordpressRequest) wordpressCluster
  = ((wordpressResult.1, None), wordpressAfter, wordpressTrace).
Proof. vm_compute. reflexivity. Qed.

(** C1 on the wordpress pass: it returned no error, and a second pass on the
    cluster it left returns success, creates nothing and changes nothing. *)
Lemma idempotent_at_fixed_revision_witness :
  keyedByIdentity wordpressCluster ∧
  run Cluster.apiserver (ReconcileRef wordpressRequest) wordpressCluster
  = ((wordpressResult.1, None), wordpressAfter, wordpressTrace) ∧
  ∃ tr2,
    run Cluster.apiserver (ReconcileRef wordpressRequest) wordpressAfter
    = ((Result.zero, None), wordpressAfter, tr2) ∧
    creations tr2 = [].
Proof.
  split; [exact wordpress_keyed | split; [exact wordpress_run |]].
  exact (proj2 (proj2 (idempotent_at_fixed_revision
                         parseQuantityGrammar porterIsCoreAction quotePlain
                         wordpressRequest))
           wordpressCluster wordpressResult.1 wordpressAfter wordpressTrace
           wordpress_keyed wordpress_run).
Defined.

Lemma wordpress_size_parses :
  parseQuantityGrammar (resolvedVolumeSize wordpress wordpressTrace) = inl quantity128Mi.
Proof. vm_compute. reflexivity. Qed.

(** C2 on the wordpress pass: the pass queries the job "wordpress-5" of
    "default", and what it creates is a volume claim and then a job, both
    named "wordpress-5" in "default". *)
Lemma deterministic_resource_identity_witness :
  exec (ReconcileRef wordpressRequest) wordpressTrace wordpressResult ∧
  loads wordpressRequest wordpress wordpressTrace ∧
  Installation.Name wordpress = Request.Name wordpressRequest ∧
  Installation.Namespace wordpress = Request.Namespace wordpressRequest ∧
  reachesCreation wordpressTrace ∧
  parseQuantityGrammar (resolvedVolumeSize wordpress wordpressTrace) = inl quantity128Mi ∧
  jobQueries wordpressTrace
  = [ {| NamespacedName.Namespace := "default"; NamespacedName.Name := "wordpress-5" |} ] ∧
  ∃ pvc job reply,
    creations wordpressTrace
    = [EvCreatePersistentVolumeClaim pvc [] None;
       EvCreateJob job [CreateOptions.zero] reply] ∧
    PersistentVolumeClaim.Name pvc = "wordpress-5" ∧
    PersistentVolumeClaim.Namespace pvc = "default" ∧
    Job.Name job = "wordpress-5" ∧
    Job.Namespace job = "default".
Proof.
  pose proof (deterministic_resource_identity
                parseQuantityGrammar porterIsCoreAction quotePlain
                wordpressRequest wordpress wordpressTrace wordpressResult
                (reconcileOn_exec wordpressCluster wordpressRequest)
                wordpress_loads eq_refl eq_refl) as (Hq & _ & _ & Hcreates & _).
  split; [apply reconcileOn_exec | split; [exact wordpress_loads |]].
  split; [reflexivity | split; [reflexivity |]].
  split; [exact wordpress_reachesCreation | split; [exact wordpress_size_parses |]].
  split; [exact Hq |].
  destruct (Hcreates wordpress_reachesCreation quantity128Mi wordpress_size_parses)
    as (pvc & reply & rest & Hcr & Hpn & Hpns & Hrest).
  destruct reply as [err |].
  - exfalso. destruct Hrest as [_ Herr].
    assert (Hnone : wordpressResult.2 = None) by (vm_compute; reflexivity).
    rewrite Hnone in Herr. discriminate Herr.
  - destruct Hrest as (job & reply' & -> & Hjn & Hjns & _).
    exists pvc, job, reply'. auto.
Defined.

(** C7 on the wordpress pass: the job creation comes after the successful
    creation of the volume claim, its first creation. *)
Lemma volume_claim_before_job_witness :
  exec (ReconcileRef wordpressRequest) wordpressTrace wordpressResult ∧
  ∃ before after pvc,
    wordpressTrace = before ++ EvCreatePersistentVolumeClaim pvc [] None :: after ∧
    creations before = [] ∧
    EvCreateJob wordpressJob [CreateOptions.zero] None ∈ after.
Proof.
  split; [apply reconcileOn_exec |].
  exact (proj1 (volume_claim_before_job
                  parseQuantityGrammar porterIsCoreAction quotePlain
                  wordpressRequest wordpressTrace wordpressResult
                  (reconcileOn_exec wordpressCluster wordpressRequest))
           wordpressJob [CreateOptions.zero] None wordpress_job_created).
Defined.

(** C9, as the code has it, on the wordpress pass. *)
Lemma execution_job_construction_witness :
  exec (ReconcileRef wordpressRequest) wordpressTrace wordpressResult ∧
  loads wordpressRequest wordpress wordpressTrace ∧
  EvCreateJob wordpressJob [CreateOptions.zero] None ∈ wordpressTrace ∧
  JobSpec.Completions (Job.Spec wordpressJob) = Some 1 ∧
  JobSpec.BackoffLimit (Job.Spec wordpressJob) = Some 0 ∧
  ObjectMeta.OwnerReferences (Job.ObjectMeta wordpressJob) = [].
Proof.
  pose proof (execution_job_construction
                parseQuantityGrammar porterIsCoreAction quotePlain
                wordpressRequest wordpress wordpressTrace wordpressResult
                wordpressJob [CreateOptions.zero] None
                (reconcileOn_exec wordpressCluster wordpressRequest)
                wordpress_loads wordpress_job_created) as (Hc & Hb & _ & _ & Ho).
  split; [apply reconcileOn_exec | split; [exact wordpress_loads |]].
  split; [exact wordpress_job_created | split; [exact Hc | split; [exact Hb | exact Ho]]].
Defined.

(** C9 fails on the wordpress pass: the job it creates carries no owner
    reference. *)
Lemma created_job_not_owned :
  ∃ job opts reply,
    EvCreateJob job opts reply ∈ wordpressTrace ∧ ¬ jobOwnedBy wordpress job.
Proof.
  exists wordpressJob, [CreateOptions.zero], None.
  split; [exact wordpress_job_created |].
  intros (ref & Hin & _). simpl in Hin. apply elem_of_nil in Hin as [].
Qed.

(** C10, as the code has it, on the wordpress pass. *)
Lemma status_neither_written_nor_read_witness :
  exec (ReconcileRef wordpressRequest) wordpressTrace wordpressResult ∧
  updates wordpressTrace = [] ∧
  Cluster.installations wordpressAfter = Cluster.installations wordpressCluster.
Proof.
  pose proof (status_neither_written_nor_read
                parseQuantityGrammar porterIsCoreAction quotePlain
                wordpressRequest wordpressTrace wordpressResult
                (reconcileOn_exec wordpressCluster wordpressRequest))
    as (Hup & _ & Hframe).
  split; [apply reconcileOn_exec | split; [exact Hup |]].
  apply Hframe. unfold wordpressResult, wordpressAfter, wordpressTrace, wordpressPass,
    reconcileOn. destruct (run _ _ _) as [[? ?] ?]. reflexivity.
Defined.

(** C10 fails on the wordpress pass: it created the job, and the status of
    the stored Installation is still empty. *)
Lemma status_not_populated :
  EvCreateJob wordpressJob [CreateOptions.zero] None ∈ wordpressTrace ∧
  ¬ statusPopulated wordpressAfter ("default", "wordpress").
Proof.
  split; [exact wordpress_job_created |].
  intros (inst & Hstored & Hstatus).
  assert (Hi : Cluster.installations wordpressAfter = {[ ("default", "wordpress") := wordpress ]}).
  { vm_compute. reflexivity. }
  rewrite Hi in Hstored. apply lookup_singleton_Some in Hstored as [_ <-].
  apply Hstatus. reflexivity.
Qed.

Lemma orphan_creations :
  creations orphanPass.2
  = [EvCreatePersistentVolumeClaim wordpressClaim [] (Some claimExists)].
Proof. vm_compute. reflexivity. Qed.

Lemma orphan_claim_refused :
  EvCreatePersistentVolumeClaim wordpressClaim [] (Some claimExists) ∈ orphanPass.2.
Proof.
  apply (elem_of_creations _ orphanPass.2). rewrite orphan_creations.
  apply list_elem_of_here.
Qed.

(** C3 fails on the orphaned volume: the claim creation is refused with
    already-exists and the pass returns that error. *)
Lemma already_exists_is_not_success :
  ¬ alreadyExistsIsSuccess orphanPass.2 orphanPass.1.1.
Proof.
  intros Hclaim.
  assert (Hnone : orphanPass.1.1.2 = None).
  { apply (Hclaim claimExists); [| reflexivity].
    exists (EvCreatePersistentVolumeClaim wordpressClaim [] (Some claimExists)).
    split; [exact orphan_claim_refused | reflexivity]. }
  vm_compute in Hnone. discriminate Hnone.
Qed.

(** C3, as the code has it, on the orphaned volume: the pass returns the
    already-exists error of the claim creation and attempts no job
    creation. *)
Lemma creation_conflict_is_returned_witness :
  exec (ReconcileRef wordpressRequest) orphanPass.2 orphanPass.1.1 ∧
  orphanPass.1.1 = (Result.zero, Some claimExists) ∧
  IsAlreadyExists claimExists = true ∧
  ∀ job opts reply, EvCreateJob job opts reply ∉ orphanPass.2.
Proof.
  pose proof (creation_conflict_is_returned
                parseQuantityGrammar porterIsCoreAction quotePlain
                wordpressRequest orphanPass.2 orphanPass.1.1
                (reconcileOn_exec orphanCluster wordpressRequest))
    as (Hclaim & _ & _ & Hnojob).
  split; [apply reconcileOn_exec |].
  split; [exact (Hclaim wordpressClaim [] claimExists orphan_claim_refused) |].
  split; [reflexivity |].
  exact (Hnojob wordpressClaim [] claimExists orphan_claim_refused).
Defined.

Lemma configuredVersion_exec :
  exec (getPorterImageVersion quotePlain wordpress) configuredVersionTrace
    ("v0.38.0", PullIfNotPresent).
Proof.
  apply (run_exec Cluster.apiserver _ configuredCluster _ configuredCluster).
  vm_compute. reflexivity.
Qed.


Lemma mysql_loads : loads mysqlRequest mysql mysqlPass.2.
Proof. vm_compute. reflexivity. Qed.

Lemma mysql_job_created : EvCreateJob mysqlJob [CreateOptions.zero] None ∈ mysqlPass.2.
Proof.
  apply (elem_of_creations _ mysqlPass.2).
  assert (Hc : creations mysqlPass.2
               = [EvCreatePersistentVolumeClaim
                    (scratchVolumeClaim "mysql-12" mysql
                       {| Quantity.unscaled := 67108864; Quantity.scale := 0;
                          Quantity.Format := BinarySI |}) [] None;
                  EvCreateJob mysqlJob [CreateOptions.zero] None]).
  { vm_compute. reflexivity. }
  rewrite Hc. apply list_elem_of_further, list_elem_of_here.
Qed.

(** C5 on a custom action: the arguments begin with "invoke" and the action
    flag and go on with name, reference, the fixed flags, and the
    credential, parameter-set and parameter flags. *)
Lemma executor_command_line_witness :
  exec (ReconcileRef mysqlRequest) mysqlPass.2 mysqlPass.1.1 ∧
  loads mysqlRequest mysql mysqlPass.2 ∧
  EvCreateJob mysqlJob [CreateOptions.zero] None ∈ mysqlPass.2 ∧
  ∃ params,
    params ≡ₚ map_to_list (InstallationSpec.Parameters mysqlSpec) ∧
    Container.Args
      <$> PodSpec.Containers (PodTemplateSpec.Spec (JobSpec.Template (Job.Spec mysqlJob)))
    = [ ["invoke"; "--action=status-check"]
        ++ ["mysql"; "--reference=example.com/mysql-bundle:v2";
            "--debug"; "--debug-plugins"; "--driver=kubernetes"]
        ++ ["-c=azure"; "-c=kube"]
        ++ ["-p=prod"]
        ++ ((λ kv, "--param=" +:+ kv.1 +:+ "=" +:+ kv.2) <$> params) ].
Proof.
  split; [apply reconcileOn_exec | split; [exact mysql_loads |]].
  split; [exact mysql_job_created |].
  exact (executor_command_line
           parseQuantityGrammar porterIsCoreAction quotePlain
           mysqlRequest mysql mysqlPass.2 mysqlPass.1.1
           mysqlJob [CreateOptions.zero] None
           (reconcileOn_exec mysqlCluster mysqlRequest)
           mysql_loads mysql_job_created).
Defined.

Lemma notasize_loads : loads wordpressRequest notasize notasizePass.2.
Proof. vm_compute. reflexivity. Qed.

Lemma notasize_reachesCreation : reachesCreation notasizePass.2.
Proof.
  exists {| NamespacedName.Namespace := "default"; NamespacedName.Name := "wordpress-5" |},
    (Cluster.notFound ("default", "wordpress-5")).
  split; vm_compute; reflexivity.
Qed.

Lemma notasize_rejected :
  parseQuantityGrammar (resolvedVolumeSize notasize notasizePass.2) = inr ErrFormatWrong.
Proof. vm_compute. reflexivity. Qed.

(** C6 on the volume size "notasize": the pass returns the parse error and
    creates nothing. *)
Lemma malformed_volume_size_rejected_witness :
  exec (ReconcileRef wordpressRequest) notasizePass.2 notasizePass.1.1 ∧
  loads wordpressRequest notasize notasizePass.2 ∧
  reachesCreation notasizePass.2 ∧
  parseQuantityGrammar (resolvedVolumeSize notasize notasizePass.2) = inr ErrFormatWrong ∧
  notasizePass.1.1
  = (Result.zero,
     Some (withMessage ErrFormatWrong
             ("invalid outputsVolumeSize " +:+ resolvedVolumeSize notasize notasizePass.2))) ∧
  creations notasizePass.2 = [].
Proof.
  pose proof (malformed_volume_size_rejected
                parseQuantityGrammar porterIsCoreAction quotePlain
                wordpressRequest notasize notasizePass.2 notasizePass.1.1 ErrFormatWrong
                (reconcileOn_exec notasizeCluster wordpressRequest)
                notasize_loads notasize_reachesCreation notasize_rejected)
    as (Hres & Hnil & _).
  split; [apply reconcileOn_exec | split; [exact notasize_loads |]].
  split; [exact notasize_reachesCreation | split; [exact notasize_rejected |]].
  split; [exact Hres | exact Hnil].
Defined.

(** C8 at the failing input — the Installation exists but loading it fails
    with an error that is not a not-found: [Reconcile] logs "Installation has
    been deleted" and returns success, the error is lost. *)
Theorem installation_load_failure_swallowed :
  IsNotFound connectionRefused = false ∧
  Cluster.installations outageCluster !! ("default", "wordpress") = Some wordpress ∧
  reconcileOn outageCluster wordpressRequest
  = (({| Result.Requeue := false; Result.RequeueAfter := 0 |}, None),
     outageCluster,
     [EvGetInstallation (Request.NamespacedName wordpressRequest) (inr connectionRefused);
      deletedLog wordpressRequest]).
Proof.
  split; [reflexivity | split; [apply lookup_singleton_eq |]].
  apply run_Reconcile_not_loaded. reflexivity.
Qed.


(** * Further properties of the controller *)

Section Further.

Variable ParseQuantity : string → Quantity.t + error.
Variable IsCoreAction : string → bool.
Variable Quote : string → string.

Local Abbreviation Reconcile := (Reconcile ParseQuantity IsCoreAction Quote).

(** Pull-policy derivation ([getPorterImageVersion]).  Whatever version the
    resolution ends with, the pull policy returned with it is "Always"
    exactly when the version is "canary" or "latest", and "IfNotPresent"
    otherwise; it is never "Never". *)
Theorem pull_policy_derivation inst tr porterVersion pullPolicy :
  exec (getPorterImageVersion Quote inst) tr (porterVersion, pullPolicy) →
  (pullPolicy = PullAlways ↔ porterVersion = "canary" ∨ porterVersion = "latest") ∧
  (pullPolicy = PullIfNotPresent ↔ porterVersion ≠ "canary" ∧ porterVersion ≠ "latest") ∧
  pullPolicy ≠ PullNever.
Proof.
  intros H. apply getPorterImageVersion_exec in H as (_ & _ & _ & ->).
  unfold pullPolicyFor.
  destruct (bool_decide (porterVersion = "canary")) eqn:Hc;
    destruct (bool_decide (porterVersion = "latest")) eqn:Hl; simpl;
    try apply bool_decide_eq_true in Hc; try apply bool_decide_eq_true in Hl;
    try apply bool_decide_eq_false in Hc; try apply bool_decide_eq_false in Hl;
    (split; [| split]); try discriminate; split; try discriminate; auto;
    try (intros [? ?]; contradiction); try (intros [? | ?]; contradiction).
Qed.

(** No pass asks to be requeued ([Reconcile]).  Whatever the client does,
    the result returned has [Requeue] false and no [RequeueAfter]: a retry
    can only come from the error returned beside it. *)
Theorem never_requests_requeue req tr res :
  exec (Reconcile req) tr res →
  Result.Requeue res.1 = false ∧ Result.RequeueAfter res.1 = 0.
Proof.
  intros H. apply Reconcile_exec in H.
  destruct H; split; reflexivity.
Qed.

(** Success is all or nothing ([Reconcile], [createJobForInstallation]).  A
    pass that returns no error has attempted no creation at all, or has
    created the volume claim and then the job, both accepted; a pass that
    returns an error has not had a job accepted. *)
Theorem success_creates_all_or_nothing req tr res :
  exec (Reconcile req) tr res →
  (res.2 = None →
   creations tr = [] ∨
   ∃ pvc job, creations tr = [EvCreatePersistentVolumeClaim pvc [] None;
                               EvCreateJob job [CreateOptions.zero] None]) ∧
  (res.2 ≠ None → ∀ job opts, EvCreateJob job opts None ∉ tr).
Proof.
  intros H.
  destruct (Reconcile_creations _ _ _ _ _ _ H) as [Hnil | (inst & _ & _ & Hpass & _)].
  - split; [auto |]. intros _ job opts Hin.
    apply createJob_elem_of_creations in Hin. rewrite Hnil in Hin.
    apply elem_of_nil in Hin as [].
  - destruct res as [result err]. simpl in *.
    inversion Hpass as [err1 Hcr Herr | qty err1 Hcr Herr
                       | qty v pp sa params reply Hperm Hcr Herr]; subst err.
    + split; [discriminate |]. intros _ job opts Hin.
      apply createJob_elem_of_creations in Hin. rewrite <- Hcr in Hin.
      apply elem_of_nil in Hin as [].
    + split; [discriminate |]. intros _ job opts Hin.
      apply createJob_elem_of_creations in Hin. rewrite <- Hcr in Hin.
      apply list_elem_of_singleton in Hin. discriminate Hin.
    + split.
      * intros Hnone. right. destruct reply; [discriminate Hnone |]. eauto.
      * intros Herr job opts Hin.
        apply createJob_elem_of_creations in Hin. rewrite <- Hcr in Hin.
        apply elem_of_cons in Hin as [Hin | Hin]; [discriminate Hin |].
        apply list_elem_of_singleton in Hin. injection Hin as _ _ <-.
        apply Herr. reflexivity.
Qed.

Lemma append_inj_r (s a b : string) : s +:+ a = s +:+ b → a = b.
Proof. induction s as [| c s IH]; simpl; [auto |]. intros [= H]. auto. Qed.

Lemma hasHyphen_append a b : hasHyphen (a +:+ String "-" b) = true.
Proof.
  induction a as [| c a IH]; simpl; [reflexivity |].
  destruct (decide (c = "-"%char)); [reflexivity | exact IH].
Qed.

Lemma append_nil_l (s : string) : "" +:+ s = s.
Proof. reflexivity. Qed.

Lemma append_cons (c : ascii) (a b : string) : String c a +:+ b = String c (a +:+ b).
Proof. reflexivity. Qed.

Lemma identity_inj (n1 n2 r1 r2 : string) :
  hasHyphen r1 = false → hasHyphen r2 = false →
  n1 +:+ "-" +:+ r1 = n2 +:+ "-" +:+ r2 → n1 = n2 ∧ r1 = r2.
Proof.
  intros H1 H2. revert n2.
  induction n1 as [| c n1 IH]; intros [| c' n2] Heq;
    rewrite ?append_cons, ?append_nil_l in Heq.
  - injection Heq as ->. auto.
  - injection Heq as _ ->. rewrite hasHyphen_append in H1. discriminate H1.
  - injection Heq as _ <-. rewrite hasHyphen_append in H2. discriminate H2.
  - injection Heq as -> Heq. destruct (IH _ Heq) as [-> ->]. auto.
Qed.

Lemma loaded_jobQueries req inst tr res :
  exec (Reconcile req) tr res → loads req inst tr →
  jobQueries tr = [jobKeyFor req inst].
Proof.
  intros H Hl. apply Reconcile_exec in H.
  destruct H as [err0 | inst' porterJob | inst' err0 Hnf | inst' err0 tr' res' Hnf Hc];
    try discriminate Hl; injection Hl as <-; try reflexivity.
  unfold jobQueries. simpl. f_equal.
  exact (createJobTrace_jobQueries _ _ _ _ _ _ _ Hc).
Qed.

(** A job already in the reference cluster is still there, unchanged, after
    any pass that writes no Installation. *)
Lemma run_jobs_kept {A} (p : Prog A) s a s' tr k job :
  run Cluster.apiserver p s = (a, s', tr) → updates tr = [] →
  Cluster.jobs s !! k = Some job → Cluster.jobs s' !! k = Some job.
Proof.
  revert s tr. induction p as [x | T c cont IH]; intros s tr; simpl.
  - intros [= <- <- <-] _ H. exact H.
  - destruct (Cluster.apiserver T c s) as [r s1] eqn:Hc.
    destruct (run Cluster.apiserver (cont r) s1) as [[a' s2] tr'] eqn:Hr.
    intros [= <- <- <-] Hup Hjob. unfold updates in Hup. simpl in Hup.
    destruct (is_update (observe c r)) eqn:Hu; [discriminate Hup |].
    apply (IH _ _ _ Hr Hup). clear IH Hr Hup.
    destruct c; simpl in Hc, Hu; try discriminate Hu.
    + pose proof (get_state (Cluster.installations s) key s) as Hs.
      rewrite Hc in Hs. simpl in Hs. subst s1. exact Hjob.
    + pose proof (get_state (Cluster.jobs s) key s) as Hs.
      rewrite Hc in Hs. simpl in Hs. subst s1. exact Hjob.
    + pose proof (get_state (Cluster.configmaps s) key s) as Hs.
      rewrite Hc in Hs. simpl in Hs. subst s1. exact Hjob.
    + unfold Cluster.createPersistentVolumeClaim in Hc.
      destruct (Cluster.outage s); [injection Hc as <- <-; exact Hjob |].
      destruct (Cluster.persistentvolumeclaims s !! _);
        injection Hc as <- <-; exact Hjob.
    + unfold Cluster.createJob in Hc.
      destruct (Cluster.outage s); [injection Hc as <- <-; exact Hjob |].
      destruct (Cluster.jobs s !! Cluster.metaKey (Job.ObjectMeta obj)) eqn:Hold;
        injection Hc as <- <-; [exact Hjob |]. cbn [Cluster.jobs].
      destruct (decide (Cluster.metaKey (Job.ObjectMeta obj) = k)) as [Heq | Hne].
      * rewrite Heq in Hold. congruence.
      * rewrite lookup_insert_ne by exact Hne. exact Hjob.
    + injection Hc as <- <-. exact Hjob.
    + injection Hc as <- <-. exact Hjob.
Qed.

(** Revision isolation ([Reconcile]).  Two passes for the same request that
    load the Installation at different revision tokens query different jobs
    and give different names to the jobs and to the volume claims they
    create; and on the reference cluster a pass leaves every job that was
    already there in place, unchanged. *)
Theorem revision_isolation req inst1 inst2 tr1 res1 tr2 res2 :
  exec (Reconcile req) tr1 res1 → loads req inst1 tr1 →
  exec (Reconcile req) tr2 res2 → loads req inst2 tr2 →
  Installation.ResourceVersion inst1 ≠ Installation.ResourceVersion inst2 →
  jobQueries tr1 ≠ jobQueries tr2 ∧
  (∀ job1 opts1 reply1 job2 opts2 reply2,
     EvCreateJob job1 opts1 reply1 ∈ tr1 → EvCreateJob job2 opts2 reply2 ∈ tr2 →
     Job.Name job1 ≠ Job.Name job2) ∧
  (∀ pvc1 opts1 reply1 pvc2 opts2 reply2,
     EvCreatePersistentVolumeClaim pvc1 opts1 reply1 ∈ tr1 →
     EvCreatePersistentVolumeClaim pvc2 opts2 reply2 ∈ tr2 →
     PersistentVolumeClaim.Name pvc1 ≠ PersistentVolumeClaim.Name pvc2) ∧
  (∀ c c' k job,
     run Cluster.apiserver (Reconcile req) c = (res2, c', tr2) →
     Cluster.jobs c !! k = Some job → Cluster.jobs c' !! k = Some job).
Proof.
  intros H1 Hl1 H2 Hl2 Hrv.
  assert (Hname : jobNameFor req inst1 ≠ jobNameFor req inst2).
  { unfold jobNameFor. intros Heq. apply append_inj_r in Heq.
    apply (append_inj_r "-") in Heq. contradiction. }
  split; [| split; [| split]].
  - rewrite (loaded_jobQueries _ _ _ _ H1 Hl1), (loaded_jobQueries _ _ _ _ H2 Hl2).
    unfold jobKeyFor. intros [= Heq]. contradiction.
  - intros job1 opts1 reply1 job2 opts2 reply2 Hin1 Hin2.
    destruct (created_job _ _ _ _ _ _ _ _ _ _ H1 Hl1 Hin1)
      as (? & ? & ? & ? & ? & _ & -> & _).
    destruct (created_job _ _ _ _ _ _ _ _ _ _ H2 Hl2 Hin2)
      as (? & ? & ? & ? & ? & _ & -> & _).
    exact Hname.
  - intros pvc1 opts1 reply1 pvc2 opts2 reply2 Hin1 Hin2.
    destruct (created_claim _ _ _ _ _ _ _ _ _ _ H1 Hl1 Hin1) as (? & -> & _).
    destruct (created_claim _ _ _ _ _ _ _ _ _ _ H2 Hl2 Hin2) as (? & -> & _).
    exact Hname.
  - intros c c' k job Hrun Hjob.
    exact (run_jobs_kept _ _ _ _ _ _ _ Hrun (Reconcile_updates _ _ _ _ _ _ H2) Hjob).
Qed.

(** One identity per request name and revision ([Reconcile]).  When the
    revision tokens contain no hyphen, two passes that query the same job
    were made for the same namespace and name and loaded the same revision:
    the derived identity then determines the pair it was derived from. *)
Theorem job_identity_determines_revision req1 inst1 tr1 res1 req2 inst2 tr2 res2 :
  exec (Reconcile req1) tr1 res1 → loads req1 inst1 tr1 →
  exec (Reconcile req2) tr2 res2 → loads req2 inst2 tr2 →
  hasHyphen (Installation.ResourceVersion inst1) = false →
  hasHyphen (Installation.ResourceVersion inst2) = false →
  jobQueries tr1 = jobQueries tr2 →
  Request.Namespace req1 = Request.Namespace req2 ∧
  Request.Name req1 = Request.Name req2 ∧
  Installation.ResourceVersion inst1 = Installation.ResourceVersion inst2.
Proof.
  intros H1 Hl1 H2 Hl2 Hh1 Hh2 Hq.
  rewrite (loaded_jobQueries _ _ _ _ H1 Hl1), (loaded_jobQueries _ _ _ _ H2 Hl2) in Hq.
  unfold jobKeyFor, jobNameFor in Hq. injection Hq as Hns Hname.
  destruct (identity_inj _ _ _ _ Hh1 Hh2 Hname) as [Hn Hr]. auto.
Qed.

(** The trace of a pass that submits a job, piece by piece. *)
Lemma submitted_pass req inst tr res job opts reply :
  exec (Reconcile req) tr res → loads req inst tr →
  EvCreateJob job opts reply ∈ tr →
  ∃ err tr0 qty tr1 v pp tr2 sa params,
    exec (getOutputsVolumeSize ParseQuantity Quote inst) tr0 (inl qty) ∧
    exec (getPorterImageVersion Quote inst) tr1 (v, pp) ∧
    exec (getPorterAgentServiceAccount Quote inst) tr2 sa ∧
    tr = EvGetInstallation (Request.NamespacedName req) (inl inst)
           :: EvGetJob (jobKeyFor req inst) (inr err)
           :: creatingLog (jobNameFor req inst) inst
           :: tr0
           ++ EvCreatePersistentVolumeClaim
                (scratchVolumeClaim (jobNameFor req inst) inst qty) [] None
           :: tr1
           ++ EvLogInfo ("Using " +:+ porterImage v) []
           :: tr2
           ++ [EvRangeParameters
                 (InstallationSpec.Parameters (Installation.Spec inst)) params;
               EvCreateJob job opts reply] ∧
    job = porterJobFor (jobNameFor req inst) inst
            (scratchVolumeClaim (jobNameFor req inst) inst qty)
            (porterImage v) pp sa (porterArgs IsCoreAction inst params).
Proof.
  intros H Hl Hin. apply Reconcile_exec in H.
  destruct H as [err0 | inst' porterJob | inst' err0 Hnf | inst' err0 tr' res' Hnf Hc];
    try discriminate Hl; injection Hl as <-.
  - do 2 (apply elem_of_cons in Hin as [Hin | Hin]; [discriminate Hin |]).
    apply elem_of_nil in Hin as [].
  - do 2 (apply elem_of_cons in Hin as [Hin | Hin]; [discriminate Hin |]).
    apply elem_of_nil in Hin as [].
  - do 2 (apply elem_of_cons in Hin as [Hin | Hin]; [discriminate Hin |]).
    destruct Hc as [tr0 err1 H0 | tr0 qty err1 H0
                   | tr0 qty tr1 v pp tr2 sa params reply' H0 H1 H2 Hperm];
      pose proof (getOutputsVolumeSize_exec _ _ _ _ _ H0) as (Hro0 & _);
      (apply elem_of_cons in Hin as [Hin | Hin]; [discriminate Hin |]).
    + apply (readOnly_elem_of _ _ Hro0) in Hin. discriminate Hin.
    + apply elem_of_app in Hin as [Hin | Hin].
      * apply (readOnly_elem_of _ _ Hro0) in Hin. discriminate Hin.
      * apply list_elem_of_singleton in Hin. discriminate Hin.
    + pose proof (getPorterImageVersion_exec _ _ _ _ _ H1) as (Hro1 & _).
      pose proof (getPorterAgentServiceAccount_exec _ _ _ _ H2) as (Hro2 & _).
      apply elem_of_app in Hin as [Hin | Hin];
        [apply (readOnly_elem_of _ _ Hro0) in Hin; discriminate Hin |].
      apply elem_of_cons in Hin as [Hin | Hin]; [discriminate Hin |].
      apply elem_of_app in Hin as [Hin | Hin];
        [apply (readOnly_elem_of _ _ Hro1) in Hin; discriminate Hin |].
      apply elem_of_cons in Hin as [Hin | Hin]; [discriminate Hin |].
      apply elem_of_app in Hin as [Hin | Hin];
        [apply (readOnly_elem_of _ _ Hro2) in Hin; discriminate Hin |].
      apply elem_of_cons in Hin as [Hin | Hin]; [discriminate Hin |].
      apply list_elem_of_singleton in Hin. injection Hin as -> -> ->.
      exists err0, tr0, qty, tr1, v, pp, tr2, sa, params. auto 7.
Qed.

Lemma configLookups_skip e tr :
  configLookup e = None → configLookups (e :: tr) = configLookups tr.
Proof. unfold configLookups. simpl. intros ->. reflexivity. Qed.

Lemma submitted_lookups req err inst jobName tr0 pvc tr1 msg tr2 m params job opts reply :
  configLookups
    (EvGetInstallation (Request.NamespacedName req) (inl inst)
       :: EvGetJob (jobKeyFor req inst) (inr err)
       :: creatingLog jobName inst
       :: tr0 ++ EvCreatePersistentVolumeClaim pvc [] None
       :: tr1 ++ EvLogInfo msg []
       :: tr2 ++ [EvRangeParameters m params; EvCreateJob job opts reply])
  = configLookups tr0 ++ configLookups tr1 ++ configLookups tr2.
Proof.
  unfold creatingLog. rewrite !configLookups_skip by reflexivity.
  rewrite configLookups_app, configLookups_skip by reflexivity.
  rewrite configLookups_app, configLookups_skip by reflexivity.
  rewrite configLookups_app. simpl. rewrite app_nil_r. reflexivity.
Qed.



Lemma resolved_stable inst override tr cfg key dflt :
  consulted inst override tr →
  (∀ k r, (k, r) ∈ configLookups tr → r = cfg) →
  resolved override (configReply tr) key dflt = resolved override (Some cfg) key dflt.
Proof.
  unfold consulted, resolved. destruct (decide (override ≠ "")); [reflexivity |].
  intros [reply Hl] Hst. unfold configReply. rewrite Hl. simpl.
  rewrite (Hst (porterConfigKey inst) reply); [reflexivity |].
  rewrite Hl. apply list_elem_of_here.
Qed.

(** The resolved settings reach the created objects
    ([createJobForInstallation]).  In a pass that submits a job and whose
    configmap lookups all got the same reply, the job's one container runs
    the image "ghcr.io/getporter/porter:kubernetes-" followed by the
    resolved version, with the pull policy derived from that version; the
    pod runs under the resolved service account; and the volume claim
    created before requests, as its only resource, the parsed resolved size
    of storage, with access mode ReadWriteOnce. *)
Theorem settings_reach_the_job req inst tr res job opts reply cfg :
  exec (Reconcile req) tr res → loads req inst tr →
  EvCreateJob job opts reply ∈ tr →
  stableConfig cfg tr →
  let spec := Installation.Spec inst in
  let version :=
    resolved (InstallationSpec.PorterVersion spec) (Some cfg) "porterVersion" "latest" in
  let size :=
    resolved (InstallationSpec.OutputsVolumeSize spec) (Some cfg)
      "outputsVolumeSize" "128Mi" in
  (∃ c, soleContainer job = Some c ∧
        Container.Image c = "ghcr.io/getporter/porter:kubernetes-" +:+ version ∧
        Container.ImagePullPolicy c = pullPolicyFor version) ∧
  PodSpec.ServiceAccountName (PodTemplateSpec.Spec (JobSpec.Template (Job.Spec job)))
  = resolved (InstallationSpec.ServiceAccount spec) (Some cfg) "serviceAccount" "" ∧
  ∃ pvc qty,
    EvCreatePersistentVolumeClaim pvc [] None ∈ tr ∧
    ParseQuantity size = inl qty ∧
    ResourceRequirements.Requests
      (PersistentVolumeClaimSpec.Resources (PersistentVolumeClaim.Spec pvc))
    = {[ ResourceStorage := qty ]} ∧
    PersistentVolumeClaimSpec.AccessModes (PersistentVolumeClaim.Spec pvc)
    = [ReadWriteOnce].
Proof.
  intros H Hl Hin Hst spec version size.
  destruct (submitted_pass _ _ _ _ _ _ _ H Hl Hin)
    as (err & tr0 & qty & tr1 & v & pp & tr2 & sa & params & H0 & H1 & H2 & -> & ->).
  apply getOutputsVolumeSize_exec in H0 as (_ & Hc0 & Hq).
  apply getPorterImageVersion_exec in H1 as (_ & Hc1 & Hv & Hpp).
  apply getPorterAgentServiceAccount_exec in H2 as (_ & Hc2 & Hsa).
  unfold stableConfig in Hst. rewrite submitted_lookups in Hst.
  assert (Hst0 : ∀ k r, (k, r) ∈ configLookups tr0 → r = cfg).
  { intros k r Hk. apply (Hst k). apply elem_of_app. auto. }
  assert (Hst1 : ∀ k r, (k, r) ∈ configLookups tr1 → r = cfg).
  { intros k r Hk. apply (Hst k). apply elem_of_app. right. apply elem_of_app. auto. }
  assert (Hst2 : ∀ k r, (k, r) ∈ configLookups tr2 → r = cfg).
  { intros k r Hk. apply (Hst k). apply elem_of_app. right. apply elem_of_app. auto. }
  rewrite (resolved_stable _ _ _ _ _ _ Hc0 Hst0) in Hq.
  rewrite (resolved_stable _ _ _ _ _ _ Hc1 Hst1) in Hv.
  rewrite (resolved_stable _ _ _ _ _ _ Hc2 Hst2) in Hsa.
  fold spec in Hq, Hv, Hsa. fold version in Hv. fold size in Hq.
  split; [| split].
  - eexists. split; [reflexivity |]. simpl. subst v pp. split; reflexivity.
  - simpl. exact Hsa.
  - exists (scratchVolumeClaim (jobNameFor req inst) inst qty), qty.
    split; [| split; [| split]].
    + do 3 apply list_elem_of_further. apply elem_of_app. right. apply list_elem_of_here.
    + unfold parsedSize in Hq. destruct (ParseQuantity size); congruence.
    + reflexivity.
    + reflexivity.
Qed.

(** The pod template hangs together ([createJobForInstallation]).  The job
    a pass submits has one container, named like the job; every volume the
    container mounts is declared by the pod; the volume "porter-shared" is
    backed by the volume claim the same pass created before, in the job's
    namespace, and the container is told that claim's name, the mount path
    of that volume and the job's namespace through its environment; and the
    configuration secret and the environment secret are both optional. *)
Theorem pod_template_consistent req inst tr res job opts reply :
  exec (Reconcile req) tr res → loads req inst tr →
  EvCreateJob job opts reply ∈ tr →
  let podSpec := PodTemplateSpec.Spec (JobSpec.Template (Job.Spec job)) in
  ∃ c pvc path,
    soleContainer job = Some c ∧
    Container.Name c = Job.Name job ∧
    (∀ m, m ∈ Container.VolumeMounts c →
          ∃ vol, vol ∈ PodSpec.Volumes podSpec ∧ Volume.Name vol = VolumeMount.Name m) ∧
    EvCreatePersistentVolumeClaim pvc [] None ∈ tr ∧
    PersistentVolumeClaim.Namespace pvc = Job.Namespace job ∧
    {| Volume.Name := "porter-shared";
       Volume.VolumeSource :=
         {| VolumeSource.PersistentVolumeClaim :=
              Some {| PersistentVolumeClaimVolumeSource.ClaimName :=
                        PersistentVolumeClaim.Name pvc |};
            VolumeSource.Secret := None |} |} ∈ PodSpec.Volumes podSpec ∧
    {| VolumeMount.Name := "porter-shared"; VolumeMount.MountPath := path |}
      ∈ Container.VolumeMounts c ∧
    {| EnvVar.Name := "JOB_VOLUME_PATH"; EnvVar.Value := path |} ∈ Container.Env c ∧
    {| EnvVar.Name := "JOB_VOLUME_NAME"; EnvVar.Value := PersistentVolumeClaim.Name pvc |}
      ∈ Container.Env c ∧
    {| EnvVar.Name := "KUBE_NAMESPACE"; EnvVar.Value := Job.Namespace job |}
      ∈ Container.Env c ∧
    (∀ vol s, vol ∈ PodSpec.Volumes podSpec →
              VolumeSource.Secret (Volume.VolumeSource vol) = Some s →
              SecretVolumeSource.Optional s = Some true) ∧
    (∀ src s, src ∈ Container.EnvFrom c →
              EnvFromSource.SecretRef src = Some s →
              SecretEnvSource.Optional s = Some true).
Proof.
  intros H Hl Hin podSpec.
  destruct (submitted_pass _ _ _ _ _ _ _ H Hl Hin)
    as (err & tr0 & qty & tr1 & v & pp & tr2 & sa & params & _ & _ & _ & Htr & Hjob).
  subst podSpec. subst job.
  eexists _, (scratchVolumeClaim (jobNameFor req inst) inst qty), "/porter-shared".
  split; [reflexivity |]. simpl.
  split; [reflexivity |]. split; [| split; [| split; [| split]]].
  - intros m Hm. apply elem_of_cons in Hm as [-> | Hm].
    + eexists. split; [apply list_elem_of_here | reflexivity].
    + apply list_elem_of_singleton in Hm as ->.
      eexists. split; [apply list_elem_of_further, list_elem_of_here | reflexivity].
  - rewrite Htr. do 3 apply list_elem_of_further. apply elem_of_app. right.
    apply list_elem_of_here.
  - reflexivity.
  - apply list_elem_of_here.
  - split; [apply list_elem_of_here |].
    split; [do 4 apply list_elem_of_further; apply list_elem_of_here |].
    split; [do 3 apply list_elem_of_further; apply list_elem_of_here |].
    split; [apply list_elem_of_here |]. split.
    + intros vol s Hvol Hs. apply elem_of_cons in Hvol as [-> | Hvol];
        [discriminate Hs |].
      apply list_elem_of_singleton in Hvol as ->. injection Hs as <-. reflexivity.
    + intros src s Hsrc Hs. apply list_elem_of_singleton in Hsrc as ->.
      injection Hs as <-. reflexivity.
Qed.

(** Labels for discovery ([createJobForInstallation]).  The job a pass
    submits is labelled porter=true and installation=<installation name>
    and with nothing else, its pod template carries the same labels, and its
    container gets the matching selector in LABELS; the volume claim a pass
    creates carries the same two labels and job=<its own name>. *)
Theorem discovery_labels req inst tr res :
  exec (Reconcile req) tr res → loads req inst tr →
  (∀ job opts reply,
     EvCreateJob job opts reply ∈ tr →
     let labels := ObjectMeta.Labels (Job.ObjectMeta job) in
     labels !! "porter" = Some "true" ∧
     labels !! "installation" = Some (Installation.Name inst) ∧
     (∀ k, is_Some (labels !! k) → k = "porter" ∨ k = "installation") ∧
     ObjectMeta.Labels (PodTemplateSpec.ObjectMeta (JobSpec.Template (Job.Spec job)))
     = labels ∧
     ∃ c, soleContainer job = Some c ∧
          {| EnvVar.Name := "LABELS";
             EnvVar.Value := "porter=true installation=" +:+ Installation.Name inst |}
            ∈ Container.Env c) ∧
  (∀ pvc opts reply,
     EvCreatePersistentVolumeClaim pvc opts reply ∈ tr →
     let labels := ObjectMeta.Labels (PersistentVolumeClaim.ObjectMeta pvc) in
     labels !! "porter" = Some "true" ∧
     labels !! "installation" = Some (Installation.Name inst) ∧
     labels !! "job" = Some (PersistentVolumeClaim.Name pvc)).
Proof.
  intros H Hl. split.
  - intros job opts reply Hin.
    destruct (created_job _ _ _ _ _ _ _ _ _ _ H Hl Hin)
      as (qty & v & pp & sa & params & _ & -> & _).
    cbn [ObjectMeta.Labels Job.ObjectMeta porterJobFor list_to_map foldr uncurry
         fst snd curry].
    split; [apply lookup_insert_eq |]. split; [| split; [| split]].
    + rewrite lookup_insert_ne by discriminate. apply lookup_insert_eq.
    + intros k [x Hk].
      destruct (decide (k = "porter")) as [-> | Hp]; [auto |].
      destruct (decide (k = "installation")) as [-> | Hi]; [auto |].
      rewrite !lookup_insert_ne, lookup_empty in Hk by congruence. discriminate Hk.
    + reflexivity.
    + eexists. split; [reflexivity |]. simpl.
      do 2 apply list_elem_of_further. apply list_elem_of_here.
  - intros pvc opts reply Hin.
    destruct (created_claim _ _ _ _ _ _ _ _ _ _ H Hl Hin) as (qty & -> & _).
    cbn [ObjectMeta.Labels PersistentVolumeClaim.ObjectMeta scratchVolumeClaim
         list_to_map foldr uncurry fst snd curry PersistentVolumeClaim.Name
         ObjectMeta.Name].
    split; [apply lookup_insert_eq |]. split.
    + rewrite lookup_insert_ne by discriminate. apply lookup_insert_eq.
    + rewrite !lookup_insert_ne by discriminate. apply lookup_insert_eq.
Qed.

Lemma resolver_namespace inst override tr e ns :
  readOnly tr → consulted inst override tr →
  e ∈ tr → eventNamespace e = Some ns → ns = Installation.Namespace inst.
Proof.
  intros Hro Hcons Hin Hns.
  pose proof (readOnly_elem_of _ _ Hro Hin) as He.
  destruct e; try discriminate He; [| discriminate Hns].
  assert (Hk : (key, reply) ∈ configLookups tr).
  { apply list_elem_of_omap. eexists. split; [exact Hin | reflexivity]. }
  unfold consulted in Hcons. destruct (decide (override ≠ "")).
  - rewrite Hcons in Hk. apply elem_of_nil in Hk as [].
  - destruct Hcons as [r Hcons]. rewrite Hcons in Hk.
    apply list_elem_of_singleton in Hk. injection Hk as -> _.
    simpl in Hns. injection Hns as <-. reflexivity.
Qed.

(** A pass stays in its namespace ([Reconcile] and all it calls).  If the
    Installation a pass loads lies in the namespace of the request, every
    client call of the pass — the load, the job query, every configmap
    lookup, both creations — addresses that namespace and no other. *)
Theorem stays_in_the_namespace req tr res :
  exec (Reconcile req) tr res →
  (∀ inst, loads req inst tr → Installation.Namespace inst = Request.Namespace req) →
  ∀ e ns, e ∈ tr → eventNamespace e = Some ns → ns = Request.Namespace req.
Proof.
  intros H Hload e ns Hin Hns. apply Reconcile_exec in H.
  destruct H as [err0 | inst porterJob | inst err0 Hnf | inst err0 tr' res' Hnf Hc].
  - apply elem_of_cons in Hin as [-> | Hin]; [injection Hns as <-; reflexivity |].
    apply list_elem_of_singleton in Hin as ->. discriminate Hns.
  - apply elem_of_cons in Hin as [-> | Hin]; [injection Hns as <-; reflexivity |].
    apply list_elem_of_singleton in Hin as ->. injection Hns as <-. reflexivity.
  - apply elem_of_cons in Hin as [-> | Hin]; [injection Hns as <-; reflexivity |].
    apply list_elem_of_singleton in Hin as ->. injection Hns as <-. reflexivity.
  - specialize (Hload inst eq_refl).
    apply elem_of_cons in Hin as [-> | Hin]; [injection Hns as <-; reflexivity |].
    apply elem_of_cons in Hin as [-> | Hin]; [injection Hns as <-; reflexivity |].
    rewrite <- Hload. clear Hload Hnf.
    destruct Hc as [tr0 err1 H0 | tr0 qty err1 H0
                   | tr0 qty tr1 v pp tr2 sa params reply' H0 H1 H2 Hperm];
      pose proof (getOutputsVolumeSize_exec _ _ _ _ _ H0) as (Hro0 & Hc0 & _);
      (apply elem_of_cons in Hin as [-> | Hin]; [discriminate Hns |]).
    + exact (resolver_namespace _ _ _ _ _ Hro0 Hc0 Hin Hns).
    + apply elem_of_app in Hin as [Hin | Hin];
        [exact (resolver_namespace _ _ _ _ _ Hro0 Hc0 Hin Hns) |].
      apply list_elem_of_singleton in Hin as ->. injection Hns as <-. reflexivity.
    + pose proof (getPorterImageVersion_exec _ _ _ _ _ H1) as (Hro1 & Hc1 & _).
      pose proof (getPorterAgentServiceAccount_exec _ _ _ _ H2) as (Hro2 & Hc2 & _).
      apply elem_of_app in Hin as [Hin | Hin];
        [exact (resolver_namespace _ _ _ _ _ Hro0 Hc0 Hin Hns) |].
      apply elem_of_cons in Hin as [-> | Hin]; [injection Hns as <-; reflexivity |].
      apply elem_of_app in Hin as [Hin | Hin];
        [exact (resolver_namespace _ _ _ _ _ Hro1 Hc1 Hin Hns) |].
      apply elem_of_cons in Hin as [-> | Hin]; [discriminate Hns |].
      apply elem_of_app in Hin as [Hin | Hin];
        [exact (resolver_namespace _ _ _ _ _ Hro2 Hc2 Hin Hns) |].
      apply elem_of_cons in Hin as [-> | Hin]; [discriminate Hns |].
      apply list_elem_of_singleton in Hin as ->. injection Hns as <-. reflexivity.
Qed.

Lemma run_bind {St A B} (h : Handler St) (p : Prog A) (f : A → Prog B) s :
  run h (p ≫= f) s
  = let '(a, s1, tr1) := run h p s in
    let '(b, s2, tr2) := run h (f a) s1 in
    (b, s2, tr1 ++ tr2).
Proof.
  unfold mbind, Prog_mbind. revert s. induction p as [x | T c k IH]; intros s; simpl.
  - destruct (run h (f x) s) as [[b s2] tr2]. reflexivity.
  - destruct (h T c s) as [r s1]. rewrite IH.
    destruct (run h (k r) s1) as [[a s2] tr1].
    destruct (run h (f a) s2) as [[b s3] tr2]. reflexivity.
Qed.

Lemma get_missing {A} (store : gmap (string * string) A) k c :
  Cluster.outage c = None → store !! Cluster.key k = None →
  Cluster.get store k c = (inr (Cluster.notFound (Cluster.key k)), c).
Proof. unfold Cluster.get. intros -> ->. reflexivity. Qed.

(** A run that only looks up configmaps and logs leaves the reference
    cluster as it was, and every lookup was answered from it. *)
Lemma run_readOnly {A} (p : Prog A) s a s' tr :
  run Cluster.apiserver p s = (a, s', tr) → readOnly tr →
  s' = s ∧
  ∀ k r, (k, r) ∈ configLookups tr → r = (Cluster.get (Cluster.configmaps s) k s).1.
Proof.
  revert s tr. induction p as [x | T c cont IH]; intros s tr; simpl.
  - intros [= <- <- <-] _. split; [reflexivity |].
    intros k r Hin. apply elem_of_nil in Hin as [].
  - destruct (Cluster.apiserver T c s) as [r s1] eqn:Hc.
    destruct (run Cluster.apiserver (cont r) s1) as [[a' s2] tr'] eqn:Hr.
    intros [= <- <- <-] Hro. inversion Hro as [| e l He Hl]; subst.
    destruct (IH _ _ _ Hr Hl) as [-> Hrep]. clear IH Hr.
    destruct c; simpl in He, Hc; try discriminate He.
    + pose proof (get_state (Cluster.configmaps s) key s) as Hs.
      rewrite Hc in Hs. simpl in Hs. subst s1. split; [reflexivity |].
      intros k r' Hin. unfold configLookups in Hin. simpl in Hin.
      apply elem_of_cons in Hin as [Hin | Hin]; [| exact (Hrep _ _ Hin)].
      injection Hin as -> ->. rewrite Hc. reflexivity.
    + injection Hc as <- <-. split; [reflexivity | exact Hrep].
Qed.

(** The run of [getOutputsVolumeSize] on the reference cluster. *)
Lemma run_getOutputsVolumeSize c inst :
  ∃ tr,
    run Cluster.apiserver (getOutputsVolumeSize ParseQuantity Quote inst) c
    = (parsedSize ParseQuantity
         (resolved (InstallationSpec.OutputsVolumeSize (Installation.Spec inst))
            (Some (storedConfig c inst)) "outputsVolumeSize" "128Mi"),
       c, tr) ∧
    readOnly tr.
Proof.
  destruct (run Cluster.apiserver (getOutputsVolumeSize ParseQuantity Quote inst) c)
    as [[r c1] tr] eqn:Hrun.
  pose proof (run_exec _ _ _ _ _ _ Hrun) as Hex.
  apply getOutputsVolumeSize_exec in Hex as (Hro & Hcons & ->).
  destruct (run_readOnly _ _ _ _ _ Hrun Hro) as [-> Hrep].
  exists tr. split; [| exact Hro]. do 2 f_equal. f_equal.
  unfold resolved, consulted in *.
  destruct (decide (InstallationSpec.OutputsVolumeSize (Installation.Spec inst) ≠ ""));
    [reflexivity |].
  destruct Hcons as [reply Hl]. unfold configReply. rewrite Hl. simpl.
  rewrite (Hrep (porterConfigKey inst) reply); [reflexivity |].
  rewrite Hl. apply list_elem_of_here.
Qed.

(** An orphaned volume claim blocks the job ([Reconcile],
    [createJobForInstallation]).  On the reference cluster, when the
    Installation is stored, its job is not, but a volume claim of the job's
    name is already there, and the resolved volume size parses, the pass
    stops at the volume claim: it returns the already-exists error of that
    creation, attempts no job creation and leaves the cluster as it was — so
    every later pass at that revision ends the same way. *)
Theorem orphaned_claim_blocks_the_job req c inst pvc qty :
  Cluster.outage c = None →
  Cluster.installations c !! Cluster.key (Request.NamespacedName req) = Some inst →
  Cluster.jobs c !! Cluster.key (jobKeyFor req inst) = None →
  Cluster.persistentvolumeclaims c
    !! (Installation.Namespace inst, jobNameFor req inst) = Some pvc →
  ParseQuantity
    (resolved (InstallationSpec.OutputsVolumeSize (Installation.Spec inst))
       (Some (storedConfig c inst)) "outputsVolumeSize" "128Mi") = inl qty →
  let refusal :=
    Cluster.alreadyExists (Installation.Namespace inst, jobNameFor req inst) in
  ∃ tr,
    run Cluster.apiserver (Reconcile req) c = ((Result.zero, Some refusal), c, tr) ∧
    creations tr
    = [EvCreatePersistentVolumeClaim
         (scratchVolumeClaim (jobNameFor req inst) inst qty) [] (Some refusal)].
Proof.
  intros Ho Hi Hj Hp Hq refusal.
  destruct (run_getOutputsVolumeSize c inst) as (tr0 & Hrun0 & Hro0).
  unfold parsedSize in Hrun0. rewrite Hq in Hrun0.
  assert (Hcreate :
    run Cluster.apiserver
      (createJobForInstallation ParseQuantity IsCoreAction Quote
         (jobNameFor req inst) inst) c
    = (Some refusal, c,
       creatingLog (jobNameFor req inst) inst
         :: tr0 ++ [EvCreatePersistentVolumeClaim
                      (scratchVolumeClaim (jobNameFor req inst) inst qty) []
                      (Some refusal)])).
  { unfold createJobForInstallation. rewrite run_bind.
    unfold call at 1. cbn [run Cluster.apiserver observe].
    rewrite run_bind, Hrun0. rewrite run_bind.
    unfold call. cbn [run Cluster.apiserver observe].
    unfold Cluster.createPersistentVolumeClaim. rewrite Ho.
    change (Cluster.metaKey
              (PersistentVolumeClaim.ObjectMeta
                 (scratchVolumeClaim (jobNameFor req inst) inst qty)))
      with (Installation.Namespace inst, jobNameFor req inst).
    rewrite Hp. reflexivity. }
  eexists. split.
  - unfold Reconcile. rewrite run_bind.
    unfold call at 1. cbn [run Cluster.apiserver observe].
    rewrite (get_found _ _ _ _ Ho Hi). rewrite run_bind.
    unfold call at 1. cbn [run Cluster.apiserver observe].
    fold (jobNameFor req inst). fold (jobKeyFor req inst).
    rewrite (get_missing _ _ _ Ho Hj).
    change (IsNotFound (Cluster.notFound (Cluster.key (jobKeyFor req inst)))) with true.
    cbv iota. rewrite run_bind, Hcreate. reflexivity.
  - rewrite !creations_app. unfold creatingLog.
    rewrite creations_log, creations_app, (readOnly_creations _ Hro0). reflexivity.
Qed.

End Further.

(** * The further properties on concrete passes *)

Lemma configured_loads : loads wordpressRequest wordpress configuredPass.2.
Proof. vm_compute. reflexivity. Qed.

Lemma configured_creations :
  creations configuredPass.2
  = [EvCreatePersistentVolumeClaim configuredClaim [] None;
     EvCreateJob configuredJob [CreateOptions.zero] None].
Proof. vm_compute. reflexivity. Qed.

Lemma configured_job_created :
  EvCreateJob configuredJob [CreateOptions.zero] None ∈ configuredPass.2.
Proof.
  apply (elem_of_creations _ configuredPass.2). rewrite configured_creations.
  apply list_elem_of_further, list_elem_of_here.
Qed.

Lemma configured_stable : stableConfig (inl porterConfig) configuredPass.2.
Proof.
  assert (Hl : configLookups configuredPass.2
               = [(porterConfigKey wordpress, inl porterConfig);
                  (porterConfigKey wordpress, inl porterConfig);
                  (porterConfigKey wordpress, inl porterConfig)]).
  { vm_compute. reflexivity. }
  intros k r Hin. rewrite Hl in Hin.
  repeat (apply elem_of_cons in Hin as [Hin | Hin]; [injection Hin as _ ->; reflexivity |]).
  apply elem_of_nil in Hin as [].
Qed.

Lemma revised_loads : loads wordpressRequest wordpress6 revisedPass.2.
Proof. vm_compute. reflexivity. Qed.

Lemma timedOut_exec :
  exec (ReconcileRef wordpressRequest) timedOutTrace
    (Result.zero, Some (withMessage queryTimeout (queryErrorMessage wordpressRequest))).
Proof.
  unfold Reconcile, mbind, Prog_mbind, call, timedOutTrace.
  cbn [exec Prog_bind observe].
  exists (inl wordpress), [EvGetJob {| NamespacedName.Name := "wordpress-5";
                                        NamespacedName.Namespace := "default" |}
                             (inr queryTimeout)].
  split; [reflexivity |].
  exists (inr queryTimeout), []. split; [reflexivity |]. split; reflexivity.
Qed.

Lemma pull_policy_derivation_witness :
  exec (getPorterImageVersion quotePlain wordpress) configuredVersionTrace
    ("v0.38.0", PullIfNotPresent) ∧
  (PullIfNotPresent = PullIfNotPresent ↔ "v0.38.0" ≠ "canary" ∧ "v0.38.0" ≠ "latest").
Proof.
  split; [exact configuredVersion_exec |].
  exact (proj1 (proj2 (pull_policy_derivation quotePlain wordpress
                         configuredVersionTrace "v0.38.0" PullIfNotPresent
                         configuredVersion_exec))).
Defined.

Lemma never_requests_requeue_witness :
  exec (ReconcileRef wordpressRequest) wordpressTrace wordpressResult ∧
  Result.Requeue wordpressResult.1 = false ∧ Result.RequeueAfter wordpressResult.1 = 0.
Proof.
  split; [apply reconcileOn_exec |].
  exact (never_requests_requeue parseQuantityGrammar porterIsCoreAction quotePlain
           wordpressRequest wordpressTrace wordpressResult
           (reconcileOn_exec wordpressCluster wordpressRequest)).
Defined.

Lemma wordpress_succeeds : wordpressResult.2 = None.
Proof. vm_compute. reflexivity. Qed.

Lemma success_creates_all_or_nothing_witness :
  exec (ReconcileRef wordpressRequest) wordpressTrace wordpressResult ∧
  wordpressResult.2 = None ∧
  (creations wordpressTrace = [] ∨
   ∃ pvc job, creations wordpressTrace
              = [EvCreatePersistentVolumeClaim pvc [] None;
                 EvCreateJob job [CreateOptions.zero] None]).
Proof.
  split; [apply reconcileOn_exec | split; [exact wordpress_succeeds |]].
  exact (proj1 (success_creates_all_or_nothing
                  parseQuantityGrammar porterIsCoreAction quotePlain
                  wordpressRequest wordpressTrace wordpressResult
                  (reconcileOn_exec wordpressCluster wordpressRequest))
           wordpress_succeeds).
Defined.


Lemma settings_reach_the_job_witness :
  exec (ReconcileRef wordpressRequest) configuredPass.2 configuredPass.1.1 ∧
  loads wordpressRequest wordpress configuredPass.2 ∧
  EvCreateJob configuredJob [CreateOptions.zero] None ∈ configuredPass.2 ∧
  stableConfig (inl porterConfig) configuredPass.2 ∧
  ∃ c, soleContainer configuredJob = Some c ∧
       Container.Image c = "ghcr.io/getporter/porter:kubernetes-v0.38.0" ∧
       Container.ImagePullPolicy c = PullIfNotPresent.
Proof.
  split; [apply reconcileOn_exec | split; [exact configured_loads |]].
  split; [exact configured_job_created | split; [exact configured_stable |]].
  exact (proj1 (settings_reach_the_job parseQuantityGrammar porterIsCoreAction quotePlain
                  wordpressRequest wordpress configuredPass.2 configuredPass.1.1
                  configuredJob [CreateOptions.zero] None (inl porterConfig)
                  (reconcileOn_exec configuredCluster wordpressRequest)
                  configured_loads configured_job_created configured_stable)).
Defined.

Lemma pod_template_consistent_witness :
  exec (ReconcileRef wordpressRequest) wordpressTrace wordpressResult ∧
  loads wordpressRequest wordpress wordpressTrace ∧
  EvCreateJob wordpressJob [CreateOptions.zero] None ∈ wordpressTrace ∧
  ∃ c pvc path,
    soleContainer wordpressJob = Some c ∧
    Container.Name c = Job.Name wordpressJob ∧
    EvCreatePersistentVolumeClaim pvc [] None ∈ wordpressTrace ∧
    {| VolumeMount.Name := "porter-shared"; VolumeMount.MountPath := path |}
      ∈ Container.VolumeMounts c.
Proof.
  split; [apply reconcileOn_exec | split; [exact wordpress_loads |]].
  split; [exact wordpress_job_created |].
  destruct (pod_template_consistent parseQuantityGrammar porterIsCoreAction quotePlain
              wordpressRequest wordpress wordpressTrace wordpressResult
              wordpressJob [CreateOptions.zero] None
              (reconcileOn_exec wordpressCluster wordpressRequest)
              wordpress_loads wordpress_job_created)
    as (c & pvc & path & Hc & Hn & _ & Hp & _ & _ & Hm & _).
  exists c, pvc, path. auto.
Defined.

Lemma discovery_labels_witness :
  exec (ReconcileRef wordpressRequest) wordpressTrace wordpressResult ∧
  loads wordpressRequest wordpress wordpressTrace ∧
  ObjectMeta.Labels (Job.ObjectMeta wordpressJob) !! "installation" = Some "wordpress" ∧
  ObjectMeta.Labels (PersistentVolumeClaim.ObjectMeta wordpressClaim) !! "job"
  = Some "wordpress-5".
Proof.
  destruct (discovery_labels parseQuantityGrammar porterIsCoreAction quotePlain
              wordpressRequest wordpress wordpressTrace wordpressResult
              (reconcileOn_exec wordpressCluster wordpressRequest) wordpress_loads)
    as [Hjob Hclaim].
  split; [apply reconcileOn_exec | split; [exact wordpress_loads |]].
  split.
  - exact (proj1 (proj2 (Hjob wordpressJob [CreateOptions.zero] None
                           wordpress_job_created))).
  - assert (Hin : EvCreatePersistentVolumeClaim wordpressClaim [] None ∈ wordpressTrace).
    { apply (elem_of_creations _ wordpressTrace). rewrite wordpress_creations.
      apply list_elem_of_here. }
    exact (proj2 (proj2 (Hclaim wordpressClaim [] None Hin))).
Defined.

Lemma job_query_failure_returned_witness :
  exec (ReconcileRef wordpressRequest) timedOutTrace
    (Result.zero, Some (withMessage queryTimeout (queryErrorMessage wordpressRequest))) ∧
  IsNotFound queryTimeout = false ∧
  creations timedOutTrace = [].
Proof.
  split; [exact timedOut_exec | split; [reflexivity |]].
  exact (proj2 (job_query_failure_returned
                  parseQuantityGrammar porterIsCoreAction quotePlain
                  wordpressRequest timedOutTrace _ _ queryTimeout
                  timedOut_exec eq_refl eq_refl)).
Defined.

Lemma revision_isolation_witness :
  exec (ReconcileRef wordpressRequest) wordpressTrace wordpressResult ∧
  loads wordpressRequest wordpress wordpressTrace ∧
  exec (ReconcileRef wordpressRequest) revisedPass.2 revisedPass.1.1 ∧
  loads wordpressRequest wordpress6 revisedPass.2 ∧
  Installation.ResourceVersion wordpress ≠ Installation.ResourceVersion wordpress6 ∧
  jobQueries wordpressTrace ≠ jobQueries revisedPass.2.
Proof.
  assert (Hrv : Installation.ResourceVersion wordpress
                ≠ Installation.ResourceVersion wordpress6) by discriminate.
  split; [apply reconcileOn_exec | split; [exact wordpress_loads |]].
  split; [apply reconcileOn_exec | split; [exact revised_loads |]].
  split; [exact Hrv |].
  exact (proj1 (revision_isolation parseQuantityGrammar porterIsCoreAction quotePlain
                  wordpressRequest wordpress wordpress6
                  wordpressTrace wordpressResult revisedPass.2 revisedPass.1.1
                  (reconcileOn_exec wordpressCluster wordpressRequest) wordpress_loads
                  (reconcileOn_exec revisedCluster wordpressRequest) revised_loads
                  Hrv)).
Defined.

Lemma second_loads :
  loads wordpressRequest wordpress (reconcileOn wordpressAfter wordpressRequest).2.
Proof. vm_compute. reflexivity. Qed.

Lemma second_queries :
  jobQueries wordpressTrace = jobQueries (reconcileOn wordpressAfter wordpressRequest).2.
Proof. vm_compute. reflexivity. Qed.

Lemma job_identity_determines_revision_witness :
  exec (ReconcileRef wordpressRequest) wordpressTrace wordpressResult ∧
  loads wordpressRequest wordpress wordpressTrace ∧
  hasHyphen (Installation.ResourceVersion wordpress) = false ∧
  jobQueries wordpressTrace = jobQueries (reconcileOn wordpressAfter wordpressRequest).2 ∧
  Request.Name wordpressRequest = Request.Name wordpressRequest.
Proof.
  split; [apply reconcileOn_exec | split; [exact wordpress_loads |]].
  split; [reflexivity | split; [exact second_queries |]].
  exact (proj1 (proj2 (job_identity_determines_revision
                         parseQuantityGrammar porterIsCoreAction quotePlain
                         wordpressRequest wordpress wordpressTrace wordpressResult
                         wordpressRequest wordpress
                         (reconcileOn wordpressAfter wordpressRequest).2
                         (reconcileOn wordpressAfter wordpressRequest).1.1
                         (reconcileOn_exec wordpressCluster wordpressRequest)
                         wordpress_loads
                         (reconcileOn_exec wordpressAfter wordpressRequest)
                         second_loads eq_refl eq_refl second_queries))).
Defined.

Lemma orphan_size_parses :
  parseQuantityGrammar
    (resolved (InstallationSpec.OutputsVolumeSize (Installation.Spec wordpress))
       (Some (storedConfig orphanCluster wordpress)) "outputsVolumeSize" "128Mi")
  = inl quantity128Mi.
Proof. vm_compute. reflexivity. Qed.

Lemma orphaned_claim_blocks_the_job_witness :
  Cluster.outage orphanCluster = None ∧
  Cluster.jobs orphanCluster !! Cluster.key (jobKeyFor wordpressRequest wordpress) = None ∧
  ∃ tr,
    run Cluster.apiserver (ReconcileRef wordpressRequest) orphanCluster
    = ((Result.zero, Some claimExists), orphanCluster, tr) ∧
    creations tr = [EvCreatePersistentVolumeClaim wordpressClaim [] (Some claimExists)].
Proof.
  split; [reflexivity | split; [apply lookup_empty |]].
  exact (orphaned_claim_blocks_the_job parseQuantityGrammar porterIsCoreAction quotePlain
           wordpressRequest orphanCluster wordpress wordpressClaim quantity128Mi
           eq_refl (lookup_singleton_eq _ _) (lookup_empty _)
           (lookup_singleton_eq _ _) orphan_size_parses).
Defined.

Lemma stays_in_the_namespace_witness :
  exec (ReconcileRef wordpressRequest) wordpressTrace wordpressResult ∧
  (∀ inst, loads wordpressRequest inst wordpressTrace →
           Installation.Namespace inst = Request.Namespace wordpressRequest) ∧
  ∀ e ns, e ∈ wordpressTrace → eventNamespace e = Some ns → ns = "default".
Proof.
  assert (Hl : ∀ inst, loads wordpressRequest inst wordpressTrace →
                       Installation.Namespace inst = Request.Namespace wordpressRequest).
  { intros inst Hinst. rewrite (loads_inj _ _ _ _ Hinst wordpress_loads). reflexivity. }
  split; [apply reconcileOn_exec | split; [exact Hl |]].
  exact (stays_in_the_namespace parseQuantityGrammar porterIsCoreAction quotePlain
           wordpressRequest wordpressTrace wordpressResult
           (reconcileOn_exec wordpressCluster wordpressRequest) Hl).
Defined.
